(** * An order matching engine: the order book and its matching loop

    A shallow embedding of [Order.hpp], [Order.cpp], [OrderBook.hpp] and
    [OrderBook.cpp], followed by the properties of the order book that
    the specification states and by further properties of the code.

    Conventions of the embedding.
    - [double] prices are integers ([Z]) here.  The embedded code only
      copies and compares prices, so only the order of the finite
      doubles matters; NaN lies outside the model.
    - [int] and [long long] quantities, counters and timestamps are [Z].
      No path of the order book adds to a quantity and the only
      subtraction is guarded by [fillOrder].  [PriceLevel] adds to its
      [int] totals: there the model wraps around ([int_wrap]).
    - An [OrderPtr] is [option ptr]: [None] is [nullptr] and [Some p]
      points to the object stored at [p] in the memory [mem].  Orders are
      shared between containers, so every container holds pointers and
      every mutation goes through [mem].
    - A C++ exception is the outcome [Throw]; the matching loop runs on
      fuel and [OutOfFuel] is shown never to happen.
    - The mutex is not modelled: every operation holds it from entry to
      exit, so operations are atomic steps on the book. *)

From stdpp Require Import gmap strings list fin_maps pretty.
From Stdlib Require Import ZArith Lia.

Local Open Scope Z_scope.

(** ** Outcomes *)

Inductive exn := invalid_argument (what : string).

Inductive result (A : Type) :=
  | Ok (a : A)
  | Throw (e : exn)
  | OutOfFuel.
Arguments Ok {A} a.
Arguments Throw {A} e.
Arguments OutOfFuel {A}.

Definition bind {A B} (r : result A) (k : A -> result B) : result B :=
  match r with
  | Ok a => k a
  | Throw e => Throw e
  | OutOfFuel => OutOfFuel
  end.

Notation "'let*' x ':=' r 'in' k" := (bind r (fun x => k))
  (at level 10, x pattern, r at level 100, k at level 200).

(** ** Order.hpp *)

Inductive OrderType := LIMIT | MARKET | STOP_LOSS.
Inductive OrderSide := BUY | SELL.
Inductive OrderStatus :=
  PENDING | PARTIAL_FILL | FILLED | CANCELLED | REJECTED | TRIGGERED.

Global Instance OrderType_eq_dec : EqDecision OrderType.
Proof. solve_decision. Defined.
Global Instance OrderSide_eq_dec : EqDecision OrderSide.
Proof. solve_decision. Defined.
Global Instance OrderStatus_eq_dec : EqDecision OrderStatus.
Proof. solve_decision. Defined.

Record Order := mkOrder {
  orderId : string;
  userId : string;
  symbol : string;
  type : OrderType;
  side : OrderSide;
  price : Z;
  quantity : Z;
  remainingQuantity : Z;
  status : OrderStatus;
  timestamp : Z;
  triggerPrice : Z
}.

Definition isBuy (o : Order) : bool := bool_decide (side o = BUY).
Definition isSell (o : Order) : bool := bool_decide (side o = SELL).
Definition isLimit (o : Order) : bool := bool_decide (type o = LIMIT).
Definition isMarket (o : Order) : bool := bool_decide (type o = MARKET).
Definition isStopLoss (o : Order) : bool := bool_decide (type o = STOP_LOSS).

Definition setStatus (newStatus : OrderStatus) (o : Order) : Order :=
  mkOrder (orderId o) (userId o) (symbol o) (type o) (side o) (price o)
          (quantity o) (remainingQuantity o) newStatus (timestamp o)
          (triggerPrice o).

(** [std::string::empty]. *)
Definition empty (s : string) : bool :=
  match s with EmptyString => true | String _ _ => false end.

(** ** Order.cpp *)

(** [Order::Order].  [now] is the value [getCurrentTimestamp] reads from
    the clock in the member initialiser list. *)
Definition Order_new (orderId userId symbol : string) (type : OrderType)
    (side : OrderSide) (price quantity triggerPrice now : Z) : result Order :=
  if empty orderId then
    Throw (invalid_argument "Order ID cannot be empty")
  else if empty userId then
    Throw (invalid_argument "User ID cannot be empty")
  else if empty symbol then
    Throw (invalid_argument "Symbol cannot be empty")
  else if quantity <=? 0 then
    Throw (invalid_argument "Quantity must be positive")
  else if bool_decide (type = LIMIT) && (price <=? 0) then
    Throw (invalid_argument "Limit order price must be positive")
  else if bool_decide (type = STOP_LOSS) && (triggerPrice <=? 0) then
    Throw (invalid_argument "Stop-loss trigger price must be positive")
  else
    Ok (mkOrder orderId userId symbol type side price quantity quantity
                PENDING now triggerPrice).

(** [Order::fillOrder]: the returned flag and the order after the call. *)
Definition fillOrder (filledQuantity : Z) (o : Order) : result (bool * Order) :=
  if (filledQuantity <=? 0) || (remainingQuantity o <? filledQuantity) then
    Throw (invalid_argument "Invalid filled quantity")
  else
    let r := remainingQuantity o - filledQuantity in
    let o1 := mkOrder (orderId o) (userId o) (symbol o) (type o) (side o)
                      (price o) (quantity o) r (status o) (timestamp o)
                      (triggerPrice o) in
    if r =? 0 then Ok (true, setStatus FILLED o1)
    else Ok (false, setStatus PARTIAL_FILL o1).

(** [Order::isCompatibleWith], called on [o] with argument [other]. *)
Definition isCompatibleWith (o other : Order) : bool :=
  if negb (bool_decide (symbol o = symbol other)) then false
  else if bool_decide (side o = side other) then false
  else if (remainingQuantity o <=? 0) || (remainingQuantity other <=? 0) then
    false
  else if bool_decide (status o = FILLED)
          || bool_decide (status o = CANCELLED)
          || bool_decide (status other = FILLED)
          || bool_decide (status other = CANCELLED) then false
  else if isBuy o && isSell other then
    if isMarket o || isMarket other then true
    else other.(price) <=? o.(price)
  else if isSell o && isBuy other then
    if isMarket o || isMarket other then true
    else o.(price) <=? other.(price)
  else false.

(** ** OrderBook.hpp *)

Definition ptr := nat.

Global Instance Order_inhabited : Inhabited Order :=
  populate (mkOrder EmptyString EmptyString EmptyString LIMIT BUY 0 0 0
                    PENDING 0 0).

(** [struct Trade].  Its [timestamp] member, a clock reading that nothing
    in the book reads back, is left out. *)
Record Trade := mkTrade {
  tradeId : string;
  buyOrderId : string;
  sellOrderId : string;
  trade_symbol : string;
  trade_price : Z;
  trade_quantity : Z
}.

(** [BuyOrderComparator] and [SellOrderComparator] of Order.hpp, reading
    the two orders through their pointers. *)
Definition BuyOrderComparator (m : gmap ptr Order) (a b : ptr) : bool :=
  if negb (price (m !!! a) =? price (m !!! b)) then
    price (m !!! a) <? price (m !!! b)
  else timestamp (m !!! b) <? timestamp (m !!! a).

Definition SellOrderComparator (m : gmap ptr Order) (a b : ptr) : bool :=
  if negb (price (m !!! a) =? price (m !!! b)) then
    price (m !!! b) <? price (m !!! a)
  else timestamp (m !!! b) <? timestamp (m !!! a).

Definition StopLossBuyComparator (m : gmap ptr Order) (a b : ptr) : bool :=
  triggerPrice (m !!! a) <? triggerPrice (m !!! b).

Definition StopLossSellComparator (m : gmap ptr Order) (a b : ptr) : bool :=
  triggerPrice (m !!! b) <? triggerPrice (m !!! a).

(** *** std::priority_queue

    The queue is the list of its elements, oldest push first.  [top] is an
    element that [comp] puts below no other element; among elements that
    [comp] does not separate the standard leaves the choice open, and the
    model takes the oldest. *)
Section PriorityQueue.
Context {A : Type} `{EqDecision A} (comp : A -> A -> bool).

Fixpoint pq_best (cur : A) (q : list A) : A :=
  match q with
  | [] => cur
  | x :: q' => pq_best (if comp cur x then x else cur) q'
  end.

Definition pq_top (q : list A) : option A :=
  match q with
  | [] => None
  | x :: q' => Some (pq_best x q')
  end.

Fixpoint remove_first (x : A) (q : list A) : list A :=
  match q with
  | [] => []
  | y :: q' => if decide (x = y) then q' else y :: remove_first x q'
  end.

Definition pq_pop (q : list A) : list A :=
  match pq_top q with
  | None => q
  | Some x => remove_first x q
  end.

Definition pq_push (x : A) (q : list A) : list A := q ++ [x].
End PriorityQueue.

(** *** AVLTree *)
Inductive Node (T : Type) :=
  | Null
  | Nd (data : T) (l r : Node T) (height : Z).
Arguments Null {T}.
Arguments Nd {T} data l r height.

Section AVLTree.
Context {T : Type} (comp : T -> T -> bool).

Definition getHeight (node : Node T) : Z :=
  match node with Null => 0 | Nd _ _ _ h => h end.

Definition getBalance (node : Node T) : Z :=
  match node with
  | Null => 0
  | Nd _ l r _ => getHeight l - getHeight r
  end.

(** A rotation of a node without the child it turns around dereferences
    a null pointer in the source; [insert] never asks for one. *)
Definition rotateRight (y : Node T) : Node T :=
  match y with
  | Nd yd (Nd xd xl T2 _) yr _ =>
      let y' := Nd yd T2 yr (Z.max (getHeight T2) (getHeight yr) + 1) in
      Nd xd xl y' (Z.max (getHeight xl) (getHeight y') + 1)
  | _ => y
  end.

Definition rotateLeft (x : Node T) : Node T :=
  match x with
  | Nd xd xl (Nd yd T2 yr _) _ =>
      let x' := Nd xd xl T2 (Z.max (getHeight xl) (getHeight T2) + 1) in
      Nd yd x' yr (Z.max (getHeight x') (getHeight yr) + 1)
  | _ => x
  end.

(** [comp(data, node->data)] on a child that may be null; the source
    only evaluates it behind a balance test that makes the child exist. *)
Definition comp_data (data : T) (node : Node T) : bool :=
  match node with Null => false | Nd d _ _ _ => comp data d end.
Definition comp_node (node : Node T) (data : T) : bool :=
  match node with Null => false | Nd d _ _ _ => comp d data end.

(** The part of [insert] after the recursive call: height update and
    the four rotation cases. *)
Definition rebalance (d : T) (l r : Node T) (data : T) : Node T :=
  let node := Nd d l r (1 + Z.max (getHeight l) (getHeight r)) in
  let balance := getBalance node in
  if (1 <? balance) && comp_data data l then rotateRight node
  else if (balance <? -1) && comp_node r data then rotateLeft node
  else if (1 <? balance) && comp_node l data then
    rotateRight (Nd d (rotateLeft l) r
                    (1 + Z.max (getHeight l) (getHeight r)))
  else if (balance <? -1) && comp_data data r then
    rotateLeft (Nd d l (rotateRight r)
                   (1 + Z.max (getHeight l) (getHeight r)))
  else node.

Fixpoint insert (node : Node T) (data : T) : Node T :=
  match node with
  | Null => Nd data Null Null 1
  | Nd d l r h =>
      if comp data d then rebalance d (insert l data) r data
      else if comp d data then rebalance d l (insert r data) data
      else node
  end.

Fixpoint inOrder (node : Node T) : list T :=
  match node with
  | Null => []
  | Nd d l r _ => inOrder l ++ d :: inOrder r
  end.
End AVLTree.

(** *** class OrderBook

    [mem] is the memory holding the [Order] objects the book's shared
    pointers refer to and [tradeIdCounter] the function-local static of
    [generateTradeId].  The two [PriceLevelTree] members are never
    touched by OrderBook.cpp and are left out. *)
Record OrderBook := mkBook {
  bookSymbol : string;
  buyOrders : list ptr;
  sellOrders : list ptr;
  orderMap : gmap string ptr;
  userOrders : gmap string (list ptr);
  buyStopLossOrders : Node ptr;
  sellStopLossOrders : Node ptr;
  totalTrades : Z;
  totalVolume : Z;
  lastTradePrice : Z;
  mem : gmap ptr Order;
  tradeIdCounter : Z
}.

Definition set_buyOrders (q : list ptr) (b : OrderBook) : OrderBook :=
  mkBook (bookSymbol b) q (sellOrders b) (orderMap b) (userOrders b)
         (buyStopLossOrders b) (sellStopLossOrders b) (totalTrades b)
         (totalVolume b) (lastTradePrice b) (mem b) (tradeIdCounter b).

Definition set_sellOrders (q : list ptr) (b : OrderBook) : OrderBook :=
  mkBook (bookSymbol b) (buyOrders b) q (orderMap b) (userOrders b)
         (buyStopLossOrders b) (sellStopLossOrders b) (totalTrades b)
         (totalVolume b) (lastTradePrice b) (mem b) (tradeIdCounter b).

Definition set_maps (om : gmap string ptr) (uo : gmap string (list ptr))
    (b : OrderBook) : OrderBook :=
  mkBook (bookSymbol b) (buyOrders b) (sellOrders b) om uo
         (buyStopLossOrders b) (sellStopLossOrders b) (totalTrades b)
         (totalVolume b) (lastTradePrice b) (mem b) (tradeIdCounter b).

Definition set_buyStopLossOrders (t : Node ptr) (b : OrderBook) : OrderBook :=
  mkBook (bookSymbol b) (buyOrders b) (sellOrders b) (orderMap b)
         (userOrders b) t (sellStopLossOrders b) (totalTrades b)
         (totalVolume b) (lastTradePrice b) (mem b) (tradeIdCounter b).

Definition set_sellStopLossOrders (t : Node ptr) (b : OrderBook) : OrderBook :=
  mkBook (bookSymbol b) (buyOrders b) (sellOrders b) (orderMap b)
         (userOrders b) (buyStopLossOrders b) t (totalTrades b)
         (totalVolume b) (lastTradePrice b) (mem b) (tradeIdCounter b).

Definition set_statistics (trades volume last : Z) (b : OrderBook) : OrderBook :=
  mkBook (bookSymbol b) (buyOrders b) (sellOrders b) (orderMap b)
         (userOrders b) (buyStopLossOrders b) (sellStopLossOrders b) trades
         volume last (mem b) (tradeIdCounter b).

Definition set_mem (m : gmap ptr Order) (b : OrderBook) : OrderBook :=
  mkBook (bookSymbol b) (buyOrders b) (sellOrders b) (orderMap b)
         (userOrders b) (buyStopLossOrders b) (sellStopLossOrders b)
         (totalTrades b) (totalVolume b) (lastTradePrice b) m
         (tradeIdCounter b).

Definition set_tradeIdCounter (n : Z) (b : OrderBook) : OrderBook :=
  mkBook (bookSymbol b) (buyOrders b) (sellOrders b) (orderMap b)
         (userOrders b) (buyStopLossOrders b) (sellStopLossOrders b)
         (totalTrades b) (totalVolume b) (lastTradePrice b) (mem b) n.

(** [*p] for a pointer the book holds. *)
Definition deref (b : OrderBook) (p : ptr) : Order := mem b !!! p.

(** ** OrderBook.cpp *)

(** [OrderBook::OrderBook], in a process that holds no order yet. *)
Definition OrderBook_new (symbol : string) : OrderBook :=
  mkBook symbol [] [] ∅ ∅ Null Null 0 0 0 ∅ 0.

(** [std::make_shared<Order>]: the object is placed at an unused address. *)
Definition make_shared (o : Order) (b : OrderBook) : ptr * OrderBook :=
  let p := fresh (dom (mem b)) in
  (p, set_mem (<[p := o]> (mem b)) b).

(** [p->fillOrder(quantity)] on the shared object. *)
Definition fillOrderAt (p : ptr) (quantity : Z) (b : OrderBook)
    : result (bool * OrderBook) :=
  let* (filled, o) := fillOrder quantity (deref b p) in
  Ok (filled, set_mem (<[p := o]> (mem b)) b).

(** [OrderBook::generateTradeId]. *)
Definition generateTradeId (b : OrderBook) : string * OrderBook :=
  let n := tradeIdCounter b + 1 in
  ("TRADE_" +:+ bookSymbol b +:+ "_" +:+ pretty n, set_tradeIdCounter n b).

(** [OrderBook::executeTrade]. *)
Definition executeTrade (buyOrder sellOrder : ptr) (price quantity : Z)
    (b : OrderBook) : result (Trade * OrderBook) :=
  let* (_, b1) := fillOrderAt buyOrder quantity b in
  let* (_, b2) := fillOrderAt sellOrder quantity b1 in
  let '(tradeId, b3) := generateTradeId b2 in
  let trade := mkTrade tradeId (orderId (deref b3 buyOrder))
                       (orderId (deref b3 sellOrder)) (bookSymbol b3)
                       price quantity in
  Ok (trade,
      set_statistics (totalTrades b3 + 1) (totalVolume b3 + quantity) price b3).

(** [OrderBook::addToOrderBook]. *)
Definition addToOrderBook (order : ptr) (b : OrderBook) : OrderBook :=
  let o := deref b order in
  let b1 := set_maps (<[orderId o := order]> (orderMap b))
                     (<[userId o := (userOrders b !!! userId o) ++ [order]]>
                        (userOrders b)) b in
  if isBuy o then set_buyOrders (pq_push order (buyOrders b1)) b1
  else set_sellOrders (pq_push order (sellOrders b1)) b1.

(** [OrderBook::removeFromOrderBook]. *)
Definition removeFromOrderBook (id : string) (b : OrderBook) : OrderBook :=
  match orderMap b !! id with
  | None => b
  | Some order =>
      let user := userId (deref b order) in
      let userOrdersList := userOrders b !!! user in
      set_maps (delete id (orderMap b))
               (<[user := filter (fun o => orderId (deref b o) <> id)
                                 userOrdersList]> (userOrders b)) b
  end.

(** [OrderBook::checkStopLossOrders]: the body of the source is empty. *)
Definition checkStopLossOrders (currentPrice : Z) (b : OrderBook) : OrderBook :=
  b.

(** *** OrderBook::matchOrder

    The two branches of the source differ in the queue they drain, in its
    comparator and in the argument order of [executeTrade]; the loop is
    written once over the side [s] of the incoming order. *)
Definition opposite (s : OrderSide) (b : OrderBook) : list ptr :=
  match s with BUY => sellOrders b | SELL => buyOrders b end.

Definition set_opposite (s : OrderSide) (q : list ptr) (b : OrderBook)
    : OrderBook :=
  match s with BUY => set_sellOrders q b | SELL => set_buyOrders q b end.

Definition oppositeComparator (s : OrderSide) (m : gmap ptr Order)
    : ptr -> ptr -> bool :=
  match s with BUY => SellOrderComparator m | SELL => BuyOrderComparator m end.

Definition executeTradeFor (s : OrderSide) (incomingOrder best : ptr)
    : Z -> Z -> OrderBook -> result (Trade * OrderBook) :=
  match s with
  | BUY => executeTrade incomingOrder best
  | SELL => executeTrade best incomingOrder
  end.

(** One pass through the body of the [while] loop: [None] when the loop
    condition fails or the body breaks, otherwise the trade and the book
    at the end of the body. *)
Definition matchIteration (s : OrderSide) (incomingOrder : ptr)
    (b : OrderBook) : option (result (Trade * OrderBook)) :=
  match pq_top (oppositeComparator s (mem b)) (opposite s b) with
  | None => None
  | Some best =>
      if negb (0 <? remainingQuantity (deref b incomingOrder)) then None
      else if negb (isCompatibleWith (deref b incomingOrder) (deref b best))
      then None
      else
        let b1 := set_opposite s
                    (pq_pop (oppositeComparator s (mem b)) (opposite s b)) b in
        let tradePrice :=
          if isMarket (deref b1 best) then
            if isMarket (deref b1 incomingOrder) then lastTradePrice b1
            else price (deref b1 incomingOrder)
          else price (deref b1 best) in
        let tradeQuantity :=
          Z.min (remainingQuantity (deref b1 incomingOrder))
                (remainingQuantity (deref b1 best)) in
        Some (let* (trade, b2) :=
                executeTradeFor s incomingOrder best tradePrice tradeQuantity
                                b1 in
              Ok (trade,
                  if 0 <? remainingQuantity (deref b2 best) then
                    set_opposite s (pq_push best (opposite s b2)) b2
                  else removeFromOrderBook (orderId (deref b2 best)) b2))
  end.

Fixpoint matchLoop (fuel : nat) (s : OrderSide) (incomingOrder : ptr)
    (trades : list Trade) (b : OrderBook) : result (list Trade * OrderBook) :=
  match fuel with
  | O => OutOfFuel
  | S fuel' =>
      match matchIteration s incomingOrder b with
      | None => Ok (trades, b)
      | Some r =>
          let* (trade, b') := r in
          matchLoop fuel' s incomingOrder (trades ++ [trade]) b'
      end
  end.

Definition matchOrder (incomingOrder : ptr) (b : OrderBook)
    : result (list Trade * OrderBook) :=
  let s := if isBuy (deref b incomingOrder) then BUY else SELL in
  matchLoop (S (length (opposite s b))) s incomingOrder [] b.

(** [OrderBook::addOrder]. *)
Definition addOrder (order : option ptr) (b : OrderBook)
    : result (list Trade * OrderBook) :=
  match order with
  | None => Throw (invalid_argument "Order cannot be null")
  | Some p =>
      if negb (bool_decide (symbol (deref b p) = bookSymbol b)) then
        Throw (invalid_argument
                 "Order symbol does not match order book symbol")
      else if isStopLoss (deref b p) then
        let b1 :=
          if isBuy (deref b p) then
            set_buyStopLossOrders
              (insert (StopLossBuyComparator (mem b)) (buyStopLossOrders b) p) b
          else
            set_sellStopLossOrders
              (insert (StopLossSellComparator (mem b)) (sellStopLossOrders b) p)
              b in
        Ok ([], addToOrderBook p b1)
      else
        let* (trades, b1) := matchOrder p b in
        let b2 :=
          if 0 <? remainingQuantity (deref b1 p) then addToOrderBook p b1
          else b1 in
        let b3 :=
          match last trades with
          | Some t => checkStopLossOrders (trade_price t) b2
          | None => b2
          end in
        Ok (trades, b3)
  end.

(** [OrderBook::cancelOrder]. *)
Definition cancelOrder (id : string) (b : OrderBook) : bool * OrderBook :=
  match orderMap b !! id with
  | None => (false, b)
  | Some order =>
      let b1 := set_mem (<[order := setStatus CANCELLED (deref b order)]>
                           (mem b)) b in
      (true, removeFromOrderBook id b1)
  end.

(** [OrderBook::getOrder], [getBestBid], [getBestAsk], [isEmpty]. *)
Definition getOrder (id : string) (b : OrderBook) : option ptr :=
  orderMap b !! id.

Definition getBestBid (b : OrderBook) : Z :=
  match pq_top (BuyOrderComparator (mem b)) (buyOrders b) with
  | None => 0
  | Some p => price (deref b p)
  end.

Definition getBestAsk (b : OrderBook) : Z :=
  match pq_top (SellOrderComparator (mem b)) (sellOrders b) with
  | None => 0
  | Some p => price (deref b p)
  end.

Definition isEmpty (b : OrderBook) : bool :=
  bool_decide (buyOrders b = []) && bool_decide (sellOrders b = []).

(** ** Driving a book

    A client builds an order, shares it and hands it to [addOrder]. *)
Definition submit (id user sym : string) (ty : OrderType) (sd : OrderSide)
    (px qty trigger now : Z) (b : OrderBook)
    : result (ptr * list Trade * OrderBook) :=
  let* o := Order_new id user sym ty sd px qty trigger now in
  let '(p, b1) := make_shared o b in
  let* (trades, b2) := addOrder (Some p) b1 in
  Ok (p, trades, b2).

(** ** Vocabulary of the statements *)

(** The order [o] after a fill of [q] units. *)
Definition filled (q : Z) (o : Order) : Order :=
  mkOrder (orderId o) (userId o) (symbol o) (type o) (side o) (price o)
          (quantity o) (remainingQuantity o - q)
          (if remainingQuantity o - q =? 0 then FILLED else PARTIAL_FILL)
          (timestamp o) (triggerPrice o).

(** What an order keeps for life: everything but the remaining quantity
    and the status. *)
Definition same_identity (o o' : Order) : Prop :=
  orderId o' = orderId o /\ userId o' = userId o /\ symbol o' = symbol o /\
  type o' = type o /\ side o' = side o /\ price o' = price o /\
  quantity o' = quantity o /\ timestamp o' = timestamp o /\
  triggerPrice o' = triggerPrice o.

(** The queue an order of side [s] rests in. *)
Definition own (s : OrderSide) (b : OrderBook) : list ptr :=
  match s with BUY => buyOrders b | SELL => sellOrders b end.

Definition sideOf (o : Order) : OrderSide := if isBuy o then BUY else SELL.

(** The id a trade records for the resting order, and for the incoming
    one, when the incoming order is on side [s]. *)
Definition makerId (s : OrderSide) (t : Trade) : string :=
  match s with BUY => sellOrderId t | SELL => buyOrderId t end.
Definition takerId (s : OrderSide) (t : Trade) : string :=
  match s with BUY => buyOrderId t | SELL => sellOrderId t end.

(** A run of the matching loop: the books it goes through, with the
    resting order and the trade of every pass. *)
Inductive iterates (s : OrderSide) (incomingOrder : ptr)
    : OrderBook -> list (ptr * Trade) -> OrderBook -> Prop :=
  | iterates_stop b :
      matchIteration s incomingOrder b = None ->
      iterates s incomingOrder b [] b
  | iterates_pass b best trade b1 run b' :
      pq_top (oppositeComparator s (mem b)) (opposite s b) = Some best ->
      matchIteration s incomingOrder b = Some (Ok (trade, b1)) ->
      iterates s incomingOrder b1 run b' ->
      iterates s incomingOrder b ((best, trade) :: run) b'.

(** What one pass of the loop does, when it takes [best] from the queue,
    emits [trade] and leaves the book [b']. *)
Record pass_facts (s : OrderSide) (incomingOrder : ptr) (b : OrderBook)
    (best : ptr) (trade : Trade) (b' : OrderBook) : Prop := {
  pf_top : pq_top (oppositeComparator s (mem b)) (opposite s b) = Some best;
  pf_compatible :
    isCompatibleWith (deref b incomingOrder) (deref b best) = true;
  pf_distinct : incomingOrder <> best;
  pf_quantity :
    trade_quantity trade =
    Z.min (remainingQuantity (deref b incomingOrder))
          (remainingQuantity (deref b best));
  pf_price :
    trade_price trade =
    if isMarket (deref b best) then
      if isMarket (deref b incomingOrder) then lastTradePrice b
      else price (deref b incomingOrder)
    else price (deref b best);
  pf_makerId : makerId s trade = orderId (deref b best);
  pf_takerId : takerId s trade = orderId (deref b incomingOrder);
  pf_taker :
    deref b' incomingOrder =
    filled (trade_quantity trade) (deref b incomingOrder);
  pf_maker : deref b' best = filled (trade_quantity trade) (deref b best);
  pf_others :
    forall x, x <> incomingOrder -> x <> best -> mem b' !! x = mem b !! x;
  pf_opposite :
    opposite s b' =
    if 0 <? remainingQuantity (deref b' best) then
      remove_first best (opposite s b) ++ [best]
    else remove_first best (opposite s b);
  pf_own : own s b' = own s b;
  pf_symbol : bookSymbol b' = bookSymbol b;
  pf_buyStops : buyStopLossOrders b' = buyStopLossOrders b;
  pf_sellStops : sellStopLossOrders b' = sellStopLossOrders b;
  pf_last : lastTradePrice b' = trade_price trade
}.

(** The trade price policy along a run of the loop for the incoming order
    [t] of side [s], read on the book [b] the run started from: [last] is
    the last trade price before the first pass of [run]. *)
Fixpoint follows_price_policy (s : OrderSide) (b : OrderBook) (t : ptr)
    (last : Z) (run : list (ptr * Trade)) : Prop :=
  match run with
  | [] => True
  | (m, trade) :: run' =>
      m ∈ opposite s b /\
      makerId s trade = orderId (deref b m) /\
      takerId s trade = orderId (deref b t) /\
      (type (deref b m) <> MARKET -> trade_price trade = price (deref b m)) /\
      (type (deref b m) = MARKET -> type (deref b t) = LIMIT ->
       trade_price trade = price (deref b t)) /\
      (type (deref b m) = MARKET -> type (deref b t) <> LIMIT ->
       trade_price trade = last) /\
      follows_price_policy s b t (trade_price trade) run'
  end.

(** The inputs the constructor rejects, in the words of the
    specification. *)
Definition invalid_order (id user sym : string) (ty : OrderType)
    (px qty trigger : Z) : Prop :=
  id = EmptyString \/ user = EmptyString \/ sym = EmptyString \/ qty <= 0 \/
  (ty = LIMIT /\ px <= 0) \/ (ty = STOP_LOSS /\ trigger <= 0).

(** ** Scenarios *)

Definition resting_sell_10 : Order :=
  mkOrder "S1" "alice" "AAPL" LIMIT SELL 100 10 10 PENDING 1 0.

(** The book a successful [submit] leaves. *)
Definition book_after (r : result (ptr * list Trade * OrderBook))
    : OrderBook :=
  match r with
  | Ok (_, _, b) => b
  | _ => OrderBook_new EmptyString
  end.

(** S3: two sells at 100 rest in arrival order. *)
Definition two_sells : OrderBook :=
  book_after (submit "S2" "bob" "AAPL" LIMIT SELL 100 5 0 2
    (book_after (submit "S1" "alice" "AAPL" LIMIT SELL 100 5 0 1
      (OrderBook_new "AAPL")))).

(** A buy for 8 units, shared but not yet handed to the book. *)
Definition two_sells_and_buyer : ptr * OrderBook :=
  make_shared (mkOrder "B1" "carol" "AAPL" LIMIT BUY 100 8 8 PENDING 3 0)
              two_sells.

(** A MARKET SELL rests on a fresh book; a MARKET BUY is shared, ready to
    be handed in. *)
Definition market_sell_rests : OrderBook :=
  book_after (submit "M1" "alice" "AAPL" MARKET SELL 0 5 0 1
                     (OrderBook_new "AAPL")).

Definition market_sell_and_buyer : ptr * OrderBook :=
  make_shared (mkOrder "M2" "bob" "AAPL" MARKET BUY 0 5 5 PENDING 2 0)
              market_sell_rests.

(** S5: a MARKET BUY is shared on a fresh book. *)
Definition fresh_and_market_buyer : ptr * OrderBook :=
  make_shared (mkOrder "M1" "alice" "AAPL" MARKET BUY 0 5 5 PENDING 1 0)
              (OrderBook_new "AAPL").

(** S6: a sell at 120 rests, a buy stop with trigger 100 is placed, a sell
    at 100 is seeded, and a buy at 120 for one unit is shared, ready to be
    handed in. *)
Definition stop_and_seed : OrderBook :=
  book_after (submit "A2" "dan" "AAPL" LIMIT SELL 100 1 0 3
    (book_after (submit "ST" "bob" "AAPL" STOP_LOSS BUY 0 10 100 2
      (book_after (submit "A1" "alice" "AAPL" LIMIT SELL 120 10 0 1
        (OrderBook_new "AAPL")))))).

Definition stop_seed_and_buyer : ptr * OrderBook :=
  make_shared (mkOrder "B1" "carol" "AAPL" LIMIT BUY 120 1 1 PENDING 4 0)
              stop_and_seed.

(** A sell at 100 rests, and is then cancelled. *)
Definition one_sell : OrderBook :=
  book_after (submit "S1" "alice" "AAPL" LIMIT SELL 100 5 0 1
                     (OrderBook_new "AAPL")).

Definition sell_cancelled : OrderBook := (cancelOrder "S1" one_sell).2.

(** A buy at 50 and the MARKET BUY O1 rest, a sell at 100 rests above the
    best bid, and O1, still shared with its owner, is handed in again: it
    now meets the sell and is filled, while the index keeps its id. *)
Definition before_second_handing : OrderBook :=
  book_after (submit "S2" "carol" "AAPL" LIMIT SELL 100 5 0 3
    (book_after (submit "O1" "bob" "AAPL" MARKET BUY 0 5 0 2
      (book_after (submit "B0" "alice" "AAPL" LIMIT BUY 50 1 0 1
        (OrderBook_new "AAPL")))))).

Definition filled_in_index : OrderBook :=
  match addOrder (Some 1%nat) before_second_handing with
  | Ok (_, b) => b
  | _ => before_second_handing
  end.

(** A sell stop with trigger 90 and price 100 is placed on a fresh book. *)
Definition stop_sell_rests : OrderBook :=
  book_after (submit "ST" "alice" "AAPL" STOP_LOSS SELL 100 5 90 1
                     (OrderBook_new "AAPL")).

(** Two sell stops with the same trigger price are placed one after the
    other. *)
Definition two_stops_same_trigger : OrderBook :=
  book_after (submit "ST2" "bob" "AAPL" STOP_LOSS SELL 100 5 90 2
                     stop_sell_rests).

(** A sell at 100 for 5 rests; a MARKET BUY for 8 is shared, ready to be
    handed in. *)
Definition one_sell_and_market_buyer : ptr * OrderBook :=
  make_shared (mkOrder "M2" "bob" "AAPL" MARKET BUY 0 8 8 PENDING 2 0)
              one_sell.



(** The sum of the quantities of a list of trades. *)
Definition traded_quantity (trades : list Trade) : Z :=
  foldr Z.add 0 (map trade_quantity trades).

(** ** More of Order.cpp *)

(** [Order::setQuantity]. *)
Definition setQuantity (newQuantity : Z) (o : Order) : result Order :=
  if newQuantity <=? 0 then
    Throw (invalid_argument "Quantity must be positive")
  else
    Ok (mkOrder (orderId o) (userId o) (symbol o) (type o) (side o) (price o)
                newQuantity newQuantity (status o) (timestamp o)
                (triggerPrice o)).

(** [Order::operator<] and [Order::operator>]. *)
Definition Order_lt (o other : Order) : bool :=
  if bool_decide (side o = BUY) then
    if negb (price o =? price other) then price o <? price other
    else timestamp other <? timestamp o
  else
    if negb (price o =? price other) then price other <? price o
    else timestamp other <? timestamp o.

Definition Order_gt (o other : Order) : bool := Order_lt other o.

(** ** [int] arithmetic

    [totalQuantity] and [orderCount] of a price level are [int] members
    that the code adds to.  Signed overflow is undefined in C++; the
    model takes the two's complement result the usual compilers give. *)
Definition INT_MIN : Z := -2147483648.
Definition INT_MAX : Z := 2147483647.

Definition int_wrap (z : Z) : Z :=
  (z + 2147483648) mod 4294967296 - 2147483648.

(** [z] is a value of type [int]. *)
Definition in_int (z : Z) : Prop := INT_MIN <= z <= INT_MAX.

(** ** PriceLevel

    The queue holds shared pointers, read through the memory [m]. *)
Record PriceLevel := mkPriceLevel {
  levelPrice : Z;
  totalQuantity : Z;
  orderCount : Z;
  orders : list ptr
}.

Definition PriceLevel_new (price : Z) : PriceLevel :=
  mkPriceLevel price 0 0 [].

(** [PriceLevel::addOrder]. *)
Definition PriceLevel_addOrder (m : gmap ptr Order) (order : ptr)
    (l : PriceLevel) : PriceLevel :=
  mkPriceLevel (levelPrice l)
               (int_wrap (totalQuantity l + remainingQuantity (m !!! order)))
               (int_wrap (orderCount l + 1))
               (orders l ++ [order]).

(** The [while] loop of [PriceLevel::removeOrder]: it empties [orders]
    from the front into [tempQueue], dropping every order with the id. *)
Fixpoint removeOrder_loop (m : gmap ptr Order) (id : string)
    (orders tempQueue : list ptr) (foundOrder : option ptr)
    (totalQuantity orderCount : Z)
    : list ptr * option ptr * Z * Z :=
  match orders with
  | [] => (tempQueue, foundOrder, totalQuantity, orderCount)
  | order :: orders' =>
      if bool_decide (orderId (m !!! order) = id) then
        removeOrder_loop m id orders' tempQueue (Some order)
          (int_wrap (totalQuantity - remainingQuantity (m !!! order)))
          (int_wrap (orderCount - 1))
      else
        removeOrder_loop m id orders' (tempQueue ++ [order]) foundOrder
          totalQuantity orderCount
  end.

(** [PriceLevel::removeOrder]: the returned pointer ([None] is
    [nullptr]) and the level after the call. *)
Definition PriceLevel_removeOrder (m : gmap ptr Order) (id : string)
    (l : PriceLevel) : option ptr * PriceLevel :=
  let '(tempQueue, foundOrder, tq, oc) :=
    removeOrder_loop m id (orders l) [] None (totalQuantity l) (orderCount l)
  in (foundOrder, mkPriceLevel (levelPrice l) tq oc tempQueue).

(** [PriceLevel::getFirstOrder] and [PriceLevel::isEmpty]. *)
Definition PriceLevel_getFirstOrder (l : PriceLevel) : option ptr :=
  head (orders l).

Definition PriceLevel_isEmpty (l : PriceLevel) : bool :=
  bool_decide (orders l = []).

(** [PriceLevel::getAllOrders]: the loop moves a copy of the queue into
    the result vector. *)
Fixpoint getAllOrders_loop (tempQueue result : list ptr) : list ptr :=
  match tempQueue with
  | [] => result
  | order :: tempQueue' => getAllOrders_loop tempQueue' (result ++ [order])
  end.

Definition PriceLevel_getAllOrders (l : PriceLevel) : list ptr :=
  getAllOrders_loop (orders l) [].

(** The aggregate members say what the queue holds. *)
Definition level_consistent (m : gmap ptr Order) (l : PriceLevel) : Prop :=
  orderCount l = Z.of_nat (length (orders l)) /\
  totalQuantity l =
    foldr Z.add 0 (map (fun p => remainingQuantity (m !!! p)) (orders l)).

(** ** More of OrderBook.cpp *)

(** [OrderBook::getUserOrders]. *)
Definition getUserOrders (user : string) (b : OrderBook) : list ptr :=
  match userOrders b !! user with
  | Some l => l
  | None => []
  end.

(** ** Invariants of the AVL tree *)

(** Every node stores its height and its two subtrees differ in height by
    at most one. *)
Fixpoint avl {T : Type} (node : Node T) : Prop :=
  match node with
  | Null => True
  | Nd _ l r h =>
      avl l /\ avl r /\ h = 1 + Z.max (getHeight l) (getHeight r) /\
      -1 <= getHeight l - getHeight r <= 1
  end.

(** A search tree for [comp]: the left subtree is below the node, the
    right subtree above. *)
Fixpoint bst {T : Type} (comp : T -> T -> bool) (node : Node T) : Prop :=
  match node with
  | Null => True
  | Nd d l r _ =>
      bst comp l /\ bst comp r /\
      Forall (fun x => comp x d = true) (inOrder l) /\
      Forall (fun x => comp d x = true) (inOrder r)
  end.

(** [x] and [y] are equal keys: [comp] puts neither before the other. *)
Definition same_key {T : Type} (comp : T -> T -> bool) (x y : T) : Prop :=
  comp x y = false /\ comp y x = false.

(** ** More scenarios *)

Definition buy_100_early : Order :=
  mkOrder "B1" "alice" "AAPL" LIMIT BUY 100 10 10 PENDING 1 0.
Definition buy_100_late : Order :=
  mkOrder "B2" "bob" "AAPL" LIMIT BUY 100 10 10 PENDING 2 0.
Definition buy_99 : Order :=
  mkOrder "B3" "carol" "AAPL" LIMIT BUY 99 10 10 PENDING 0 0.

(** Two orders for [INT_MAX] units each. *)
Definition two_huge_orders : gmap ptr Order :=
  <[1%nat := mkOrder "H2" "bob" "AAPL" LIMIT BUY 100 INT_MAX INT_MAX
                     PENDING 2 0]>
  (<[0%nat := mkOrder "H1" "alice" "AAPL" LIMIT BUY 100 INT_MAX INT_MAX
                      PENDING 1 0]> ∅).


(** The subtree on the side where [data] went is the taller one, or the
    node is a leaf. *)
Definition grew {T : Type} (comp : T -> T -> bool) (data : T)
    (node : Node T) : Prop :=
  match node with
  | Null => False
  | Nd d l r _ =>
      (l = Null /\ r = Null) \/
      (comp data d = true /\ getHeight l = getHeight r + 1) \/
      (comp d data = true /\ getHeight r = getHeight l + 1)
  end.

(** The two stop trees of a book are balanced search trees for their
    comparators. *)
Definition stop_trees_ok (b : OrderBook) : Prop :=
  avl (buyStopLossOrders b) /\
  bst (StopLossBuyComparator (mem b)) (buyStopLossOrders b) /\
  avl (sellStopLossOrders b) /\
  bst (StopLossSellComparator (mem b)) (sellStopLossOrders b).

(** A tree of integers built by three insertions in increasing order; the
    third one rotates. *)
Definition tree_1_2 : Node Z := insert Z.ltb (insert Z.ltb Null 1) 2.
Definition tree_1_2_3 : Node Z := insert Z.ltb tree_1_2 3.


(** The sum of the remaining quantities of the orders [l] points to. *)
Definition remaining_sum (b : OrderBook) (l : list ptr) : Z :=
  foldr Z.add 0 (map (fun p => remainingQuantity (deref b p)) l).


(** ** Books of live LIMIT orders *)

(** [p] is a live LIMIT order of side [sd] for the book: it can still
    trade. *)
Definition resting (b : OrderBook) (sd : OrderSide) (p : ptr) : Prop :=
  type (deref b p) = LIMIT /\ side (deref b p) = sd /\
  symbol (deref b p) = bookSymbol b /\
  0 < remainingQuantity (deref b p) /\
  status (deref b p) <> FILLED /\ status (deref b p) <> CANCELLED.

(** The two queues hold live LIMIT orders of their side, each once; every
    bid is below every ask; and the id index holds exactly the queued
    orders, under their ids. *)
Definition limit_book (b : OrderBook) : Prop :=
  NoDup (buyOrders b ++ sellOrders b) /\
  (forall p, p ∈ buyOrders b -> resting b BUY p) /\
  (forall p, p ∈ sellOrders b -> resting b SELL p) /\
  (forall p q, p ∈ buyOrders b -> q ∈ sellOrders b ->
               price (deref b p) < price (deref b q)) /\
  (forall p, p ∈ (buyOrders b ++ sellOrders b) ->
             orderMap b !! orderId (deref b p) = Some p) /\
  (forall id p, orderMap b !! id = Some p ->
                p ∈ (buyOrders b ++ sellOrders b) /\ orderId (deref b p) = id).

(** [t] is a live LIMIT order the book has not seen: it is in no queue and
    its id is not in the index. *)
Definition new_limit_order (b : OrderBook) (t : ptr) : Prop :=
  type (deref b t) = LIMIT /\ symbol (deref b t) = bookSymbol b /\
  0 < remainingQuantity (deref b t) /\
  status (deref b t) <> FILLED /\ status (deref b t) <> CANCELLED /\
  (t ∉ buyOrders b ++ sellOrders b) /\
  orderMap b !! orderId (deref b t) = None.

Definition flip (s : OrderSide) : OrderSide :=
  match s with BUY => SELL | SELL => BUY end.

(** [p], of side [s], is priced so that it cannot trade with [q]. *)
Definition apart (b : OrderBook) (s : OrderSide) (p q : ptr) : Prop :=
  match s with
  | BUY => price (deref b p) < price (deref b q)
  | SELL => price (deref b q) < price (deref b p)
  end.

(** [limit_book], told from the side [s] of an incoming order. *)
Definition sided_book (s : OrderSide) (b : OrderBook) : Prop :=
  NoDup (own s b) /\ NoDup (opposite s b) /\
  (forall x, x ∈ own s b -> x ∉ opposite s b) /\
  (forall p, p ∈ own s b -> resting b s p) /\
  (forall p, p ∈ opposite s b -> resting b (flip s) p) /\
  (forall p q, p ∈ own s b -> q ∈ opposite s b -> apart b s p q) /\
  (forall p, p ∈ own s b \/ p ∈ opposite s b ->
             orderMap b !! orderId (deref b p) = Some p) /\
  (forall id p, orderMap b !! id = Some p ->
                (p ∈ own s b \/ p ∈ opposite s b) /\
                orderId (deref b p) = id).

(** The state of the matching loop for the incoming LIMIT order [t]. *)
Definition matching_state (s : OrderSide) (t : ptr) (b : OrderBook) : Prop :=
  sided_book s b /\
  type (deref b t) = LIMIT /\ side (deref b t) = s /\
  symbol (deref b t) = bookSymbol b /\
  (0 < remainingQuantity (deref b t) ->
   status (deref b t) <> FILLED /\ status (deref b t) <> CANCELLED) /\
  (t ∉ own s b) /\ (t ∉ opposite s b) /\
  orderMap b !! orderId (deref b t) = None.

(** A sell at 100 was cancelled and is still in the sell queue; a buy at
    100 is shared, ready to be handed in. *)
Definition cancelled_sell_and_buyer : ptr * OrderBook :=
  make_shared (mkOrder "B1" "bob" "AAPL" LIMIT BUY 100 5 5 PENDING 2 0)
              sell_cancelled.

(** A sell at 100 rests; a buy at 99 is shared, ready to be handed in. *)
Definition one_sell_and_low_buyer : ptr * OrderBook :=
  make_shared (mkOrder "B1" "bob" "AAPL" LIMIT BUY 99 3 3 PENDING 2 0)
              one_sell.

(** * Properties *)

(** ** Orders *)

Lemma fillOrder_Ok q o :
  0 < q -> q <= remainingQuantity o ->
  fillOrder q o = Ok (remainingQuantity o - q =? 0, filled q o).
Proof.
  intros Hq Hr. unfold fillOrder, filled, setStatus.
  destruct (Z.leb_spec q 0); [lia|].
  destruct (Z.ltb_spec (remainingQuantity o) q); [lia|]. simpl.
  destruct (remainingQuantity o - q =? 0); reflexivity.
Qed.

Lemma filled_identity q o : same_identity o (filled q o).
Proof. unfold same_identity, filled; simpl; tauto. Qed.

Lemma same_identity_refl o : same_identity o o.
Proof. unfold same_identity; tauto. Qed.

Lemma same_identity_trans o1 o2 o3 :
  same_identity o1 o2 -> same_identity o2 o3 -> same_identity o1 o3.
Proof. unfold same_identity; intuition congruence. Qed.

Lemma isCompatibleWith_true o other :
  isCompatibleWith o other = true ->
  side o <> side other /\ 0 < remainingQuantity o /\
  0 < remainingQuantity other.
Proof.
  unfold isCompatibleWith.
  destruct (negb _); [discriminate|].
  case_bool_decide; [discriminate|].
  destruct (Z.leb_spec (remainingQuantity o) 0); [discriminate|].
  destruct (Z.leb_spec (remainingQuantity other) 0); [discriminate|].
  auto.
Qed.

(** ** The priority queue *)

Section PriorityQueueFacts.
Context {A : Type} `{EqDecision A} (comp : A -> A -> bool).
Hypothesis comp_irrefl : forall x, comp x x = false.
Hypothesis comp_trans :
  forall x y z, comp x y = true -> comp y z = true -> comp x z = true.

Lemma pq_best_elem cur q : pq_best comp cur q ∈ cur :: q.
Proof.
  revert cur; induction q as [|x q IH]; intros cur; simpl.
  - left.
  - specialize (IH (if comp cur x then x else cur)).
    apply elem_of_cons in IH as [->|IH].
    + destruct (comp cur x); [right; left | left].
    + right; right; exact IH.
Qed.

Lemma pq_best_above_cur cur q :
  pq_best comp cur q = cur \/ comp cur (pq_best comp cur q) = true.
Proof.
  revert cur; induction q as [|x q IH]; intros cur; simpl; [by left|].
  destruct (comp cur x) eqn:E.
  - right. destruct (IH x) as [->|H]; [done|]. by eapply comp_trans.
  - apply IH.
Qed.

Lemma pq_best_not_below cur q y :
  comp cur y = false -> comp (pq_best comp cur q) y = false.
Proof.
  intros Hy. destruct (pq_best_above_cur cur q) as [->|Hb]; [done|].
  destruct (comp (pq_best comp cur q) y) eqn:E; [|done].
  by rewrite (comp_trans _ _ _ Hb E) in Hy.
Qed.

Lemma pq_best_max cur q y :
  y ∈ cur :: q -> comp (pq_best comp cur q) y = false.
Proof.
  revert cur; induction q as [|x q IH]; intros cur Hy.
  - apply elem_of_cons in Hy as [->|Hy]; [apply comp_irrefl|].
    by apply elem_of_nil in Hy.
  - apply elem_of_cons in Hy as [->|Hy].
    { apply pq_best_not_below, comp_irrefl. }
    simpl. apply elem_of_cons in Hy as [->|Hy].
    + apply pq_best_not_below.
      destruct (comp cur x) eqn:E; [apply comp_irrefl | exact E].
    + apply IH. by right.
Qed.

Lemma pq_top_elem q x : pq_top comp q = Some x -> x ∈ q.
Proof.
  destruct q as [|y q]; simpl; [discriminate|].
  intros [= <-]. apply pq_best_elem.
Qed.

Lemma pq_top_max q x y :
  pq_top comp q = Some x -> y ∈ q -> comp x y = false.
Proof.
  destruct q as [|z q]; simpl; [discriminate|].
  intros [= <-]. apply pq_best_max.
Qed.

Lemma pq_top_None q : pq_top comp q = None <-> q = [].
Proof. destruct q; simpl; split; congruence. Qed.

Lemma remove_first_length (x : A) (q : list A) :
  x ∈ q -> S (length (remove_first x q)) = length q.
Proof.
  induction q as [|y q IH]; simpl; intros Hx.
  - by apply elem_of_nil in Hx.
  - destruct (decide (x = y)); [done|].
    apply elem_of_cons in Hx as [?|Hx]; [done|].
    simpl. by rewrite IH.
Qed.

Lemma remove_first_subset (x : A) (q : list A) y : y ∈ remove_first x q -> y ∈ q.
Proof.
  induction q as [|z q IH]; simpl; [done|].
  destruct (decide (x = z)); intros Hy; [by right|].
  apply elem_of_cons in Hy as [->|Hy]; [left | right; auto].
Qed.

Lemma remove_first_other (x : A) (q : list A) y : y <> x -> y ∈ q -> y ∈ remove_first x q.
Proof.
  intros Hne. induction q as [|z q IH]; simpl; [done|].
  intros Hy. apply elem_of_cons in Hy as [->|Hy].
  - destruct (decide (x = z)); [congruence | left].
  - destruct (decide (x = z)); [done | right; auto].
Qed.

Lemma pq_pop_top q x : pq_top comp q = Some x -> pq_pop comp q = remove_first x q.
Proof. unfold pq_pop. by intros ->. Qed.
End PriorityQueueFacts.

Lemma BuyOrderComparator_irrefl m x : BuyOrderComparator m x x = false.
Proof. unfold BuyOrderComparator. rewrite Z.eqb_refl. simpl. apply Z.ltb_irrefl. Qed.

Lemma SellOrderComparator_irrefl m x : SellOrderComparator m x x = false.
Proof. unfold SellOrderComparator. rewrite Z.eqb_refl. simpl. apply Z.ltb_irrefl. Qed.

Lemma BuyOrderComparator_trans m x y z :
  BuyOrderComparator m x y = true -> BuyOrderComparator m y z = true ->
  BuyOrderComparator m x z = true.
Proof.
  unfold BuyOrderComparator.
  repeat match goal with
         | |- context [?a =? ?b] => destruct (Z.eqb_spec a b); simpl
         end;
  rewrite ?Z.ltb_lt; lia.
Qed.

Lemma SellOrderComparator_trans m x y z :
  SellOrderComparator m x y = true -> SellOrderComparator m y z = true ->
  SellOrderComparator m x z = true.
Proof.
  unfold SellOrderComparator.
  repeat match goal with
         | |- context [?a =? ?b] => destruct (Z.eqb_spec a b); simpl
         end;
  rewrite ?Z.ltb_lt; lia.
Qed.

Lemma oppositeComparator_irrefl s m x : oppositeComparator s m x x = false.
Proof.
  destruct s; [apply SellOrderComparator_irrefl | apply BuyOrderComparator_irrefl].
Qed.

Lemma oppositeComparator_trans s m x y z :
  oppositeComparator s m x y = true -> oppositeComparator s m y z = true ->
  oppositeComparator s m x z = true.
Proof.
  destruct s; [apply SellOrderComparator_trans | apply BuyOrderComparator_trans].
Qed.


(** ** One pass of the matching loop *)

Lemma removeFromOrderBook_frame id b :
  mem (removeFromOrderBook id b) = mem b /\
  buyOrders (removeFromOrderBook id b) = buyOrders b /\
  sellOrders (removeFromOrderBook id b) = sellOrders b /\
  bookSymbol (removeFromOrderBook id b) = bookSymbol b /\
  buyStopLossOrders (removeFromOrderBook id b) = buyStopLossOrders b /\
  sellStopLossOrders (removeFromOrderBook id b) = sellStopLossOrders b /\
  lastTradePrice (removeFromOrderBook id b) = lastTradePrice b.
Proof. unfold removeFromOrderBook. destruct (orderMap b !! id); simpl; tauto. Qed.

Lemma executeTrade_Ok buyOrder sellOrder px q b :
  buyOrder <> sellOrder -> 0 < q ->
  q <= remainingQuantity (deref b buyOrder) ->
  q <= remainingQuantity (deref b sellOrder) ->
  executeTrade buyOrder sellOrder px q b =
  Ok (mkTrade (fst (generateTradeId b)) (orderId (deref b buyOrder))
              (orderId (deref b sellOrder)) (bookSymbol b) px q,
      set_statistics (totalTrades b + 1) (totalVolume b + q) px
        (set_tradeIdCounter (tradeIdCounter b + 1)
           (set_mem (<[sellOrder := filled q (deref b sellOrder)]>
                       (<[buyOrder := filled q (deref b buyOrder)]> (mem b)))
                    b))).
Proof.
  intros Hne Hq Hb Hs. unfold executeTrade, fillOrderAt.
  rewrite fillOrder_Ok by assumption. simpl.
  unfold deref at 1. simpl.
  rewrite lookup_total_insert_ne by assumption. fold (deref b sellOrder).
  rewrite fillOrder_Ok by assumption. simpl.
  unfold deref; simpl.
  rewrite lookup_total_insert_eq.
  rewrite lookup_total_insert_ne by congruence.
  rewrite lookup_total_insert_eq. reflexivity.
Qed.

Lemma executeTradeFor_Ok s t m px q b :
  t <> m -> 0 < q ->
  q <= remainingQuantity (deref b t) -> q <= remainingQuantity (deref b m) ->
  exists trade b2,
    executeTradeFor s t m px q b = Ok (trade, b2) /\
    trade_price trade = px /\ trade_quantity trade = q /\
    makerId s trade = orderId (deref b m) /\
    takerId s trade = orderId (deref b t) /\
    deref b2 t = filled q (deref b t) /\
    deref b2 m = filled q (deref b m) /\
    (forall x, x <> t -> x <> m -> mem b2 !! x = mem b !! x) /\
    buyOrders b2 = buyOrders b /\ sellOrders b2 = sellOrders b /\
    orderMap b2 = orderMap b /\ userOrders b2 = userOrders b /\
    bookSymbol b2 = bookSymbol b /\
    buyStopLossOrders b2 = buyStopLossOrders b /\
    sellStopLossOrders b2 = sellStopLossOrders b /\
    lastTradePrice b2 = px.
Proof.
  intros Hne Hq Ht Hm. destruct s; unfold executeTradeFor.
  - rewrite executeTrade_Ok by assumption. eexists _, _.
    split; [reflexivity|]. unfold deref; simpl.
    rewrite lookup_total_insert_eq, lookup_total_insert_ne by congruence.
    rewrite lookup_total_insert_eq. repeat split.
    intros x H1 H2. by rewrite !lookup_insert_ne by congruence.
  - rewrite executeTrade_Ok by (assumption || congruence). eexists _, _.
    split; [reflexivity|]. unfold deref; simpl.
    rewrite lookup_total_insert_eq, lookup_total_insert_ne by congruence.
    rewrite lookup_total_insert_eq. repeat split.
    intros x H1 H2. by rewrite !lookup_insert_ne by congruence.
Qed.

Lemma opposite_set_opposite s q b : opposite s (set_opposite s q b) = q.
Proof. by destruct s. Qed.

Lemma own_set_opposite s q b : own s (set_opposite s q b) = own s b.
Proof. by destruct s. Qed.

Lemma own_opposite_eq s b b' :
  buyOrders b' = buyOrders b -> sellOrders b' = sellOrders b ->
  own s b' = own s b /\ opposite s b' = opposite s b.
Proof. destruct s; simpl; intros -> ->; done. Qed.

Lemma matchIteration_Some s t b r :
  matchIteration s t b = Some r ->
  exists best trade b', r = Ok (trade, b') /\ pass_facts s t b best trade b'.
Proof.
  unfold matchIteration.
  destruct (pq_top _ _) as [m|] eqn:Htop; [|discriminate].
  destruct (Z.ltb_spec 0 (remainingQuantity (deref b t))) as [Hrt|]; simpl;
    [|discriminate].
  destruct (isCompatibleWith _ _) eqn:Hc; simpl; [|discriminate].
  intros [= <-].
  destruct (isCompatibleWith_true _ _ Hc) as (Hside & _ & Hrm).
  assert (Hne : t <> m) by (intros ->; congruence).
  rewrite (pq_pop_top _ _ _ Htop).
  set (b1 := set_opposite s (remove_first m (opposite s b)) b).
  assert (Hd : forall p, deref b1 p = deref b p) by (by destruct s).
  assert (Hl : lastTradePrice b1 = lastTradePrice b) by (by destruct s).
  rewrite !Hd, Hl.
  set (px := if isMarket (deref b m) then _ else _).
  set (q := Z.min _ _).
  destruct (executeTradeFor_Ok s t m px q b1) as
    (trade & b2 & -> & Hpx & Hqq & Hmk & Htk & Ht & Hm & Ho & Hbq & Hsq &
     Hom & Huo & Hsy & Hbs & Hss & Hlast);
    rewrite ?Hd; [done | subst q; lia .. |].
  rewrite Hd in *. exists m, trade. eexists. split; [reflexivity|].
  assert (Hmem1 : forall x, mem b1 !! x = mem b !! x) by (by destruct s).
  assert (Hown1 : own s b2 = own s b).
  { destruct (own_opposite_eq s b1 b2 Hbq Hsq) as [-> _].
    apply own_set_opposite. }
  assert (Hopp1 : opposite s b2 = remove_first m (opposite s b)).
  { destruct (own_opposite_eq s b1 b2 Hbq Hsq) as [_ ->].
    apply opposite_set_opposite. }
  assert (Hsy1 : bookSymbol b1 = bookSymbol b) by (by destruct s).
  assert (Hbs1 : buyStopLossOrders b1 = buyStopLossOrders b) by (by destruct s).
  assert (Hss1 : sellStopLossOrders b1 = sellStopLossOrders b) by (by destruct s).
  destruct (0 <? remainingQuantity (deref b2 m)) eqn:Hrest.
  - set (b3 := set_opposite s _ b2).
    assert (Hd3 : forall p, deref b3 p = deref b2 p) by (by destruct s).
    split; rewrite ?Hd3, ?Hqq, ?Hpx; try done.
    + intros x H1 H2. rewrite <- Hmem1, <- Ho by done. by destruct s.
    + rewrite Hrest. subst b3. rewrite opposite_set_opposite, Hopp1. done.
    + subst b3. by rewrite own_set_opposite.
    + rewrite <- Hsy1, <- Hsy. by destruct s.
    + rewrite <- Hbs1, <- Hbs. by destruct s.
    + rewrite <- Hss1, <- Hss. by destruct s.
    + rewrite <- Hlast. by destruct s.
  - set (b3 := removeFromOrderBook _ b2).
    destruct (removeFromOrderBook_frame (orderId (deref b2 m)) b2)
      as (Fm & Fb & Fs & Fsy & Fbs & Fss & Flast).
    fold b3 in Fm, Fb, Fs, Fsy, Fbs, Fss, Flast.
    assert (Hd3 : forall p, deref b3 p = deref b2 p)
      by (intros p; unfold deref; by rewrite Fm).
    destruct (own_opposite_eq s b2 b3 Fb Fs) as [Fown Fopp].
    split; rewrite ?Hd3, ?Hqq, ?Hpx; try done.
    + intros x H1 H2. rewrite Fm, <- Hmem1, <- Ho by done. done.
    + rewrite Hrest, Fopp, Hopp1. done.
    + by rewrite Fown.
    + by rewrite Fsy, Hsy.
    + by rewrite Fbs, Hbs.
    + by rewrite Fss, Hss.
    + by rewrite Flast.
Qed.

(** ** The matching loop terminates and never throws *)

Lemma pass_facts_remaining s t b m trade b' :
  pass_facts s t b m trade b' ->
  0 < trade_quantity trade /\
  remainingQuantity (deref b' t) =
    remainingQuantity (deref b t) - trade_quantity trade /\
  remainingQuantity (deref b' m) =
    remainingQuantity (deref b m) - trade_quantity trade /\
  0 <= remainingQuantity (deref b' t) /\ 0 <= remainingQuantity (deref b' m) /\
  (0 < remainingQuantity (deref b' m) -> remainingQuantity (deref b' t) = 0).
Proof.
  intros F. destruct (isCompatibleWith_true _ _ (pf_compatible _ _ _ _ _ _ F))
    as (_ & Ht & Hm).
  rewrite (pf_taker _ _ _ _ _ _ F), (pf_maker _ _ _ _ _ _ F).
  rewrite (pf_quantity _ _ _ _ _ _ F). simpl. lia.
Qed.

Lemma matchLoop_total s t fuel : forall trades b,
  (length (opposite s b) < fuel)%nat \/
  (remainingQuantity (deref b t) <= 0 /\ (0 < fuel)%nat) ->
  exists trades' b', matchLoop fuel s t trades b = Ok (trades', b').
Proof.
  induction fuel as [|fuel IH]; intros trades b H; [lia|].
  simpl. destruct (matchIteration s t b) as [r|] eqn:E; [|eauto].
  apply matchIteration_Some in E as (m & trade & b' & -> & F). simpl.
  apply IH.
  destruct (isCompatibleWith_true _ _ (pf_compatible _ _ _ _ _ _ F))
    as (_ & Ht & _).
  destruct H as [H|[H _]]; [|lia].
  pose proof (pq_top_elem _ _ _ (pf_top _ _ _ _ _ _ F)) as Hin.
  pose proof (remove_first_length _ _ Hin) as Hlen.
  destruct (pass_facts_remaining _ _ _ _ _ _ F) as (_ & _ & _ & _ & _ & Hz).
  rewrite (pf_opposite _ _ _ _ _ _ F).
  destruct (Z.ltb_spec 0 (remainingQuantity (deref b' m))).
  - right. split; [rewrite Hz by done; lia | lia].
  - left. lia.
Qed.

Lemma matchLoop_iterates s t fuel : forall trades b trades' b',
  matchLoop fuel s t trades b = Ok (trades', b') ->
  exists run, iterates s t b run b' /\ trades' = trades ++ map snd run.
Proof.
  induction fuel as [|fuel IH]; intros trades b trades' b'; [discriminate|].
  simpl. destruct (matchIteration s t b) as [r|] eqn:E.
  - destruct (matchIteration_Some _ _ _ _ E) as (m & trade & b1 & -> & F).
    simpl. intros H. apply IH in H as (run & Hrun & ->).
    exists ((m, trade) :: run). split.
    + eapply iterates_pass; eauto. exact (pf_top _ _ _ _ _ _ F).
    + simpl. by rewrite <- app_assoc.
  - intros [= <- <-]. exists []. split; [by constructor|].
    simpl. by rewrite app_nil_r.
Qed.

Lemma iterates_pass_facts s t b m trade b1 :
  pq_top (oppositeComparator s (mem b)) (opposite s b) = Some m ->
  matchIteration s t b = Some (Ok (trade, b1)) ->
  pass_facts s t b m trade b1.
Proof.
  intros Htop E.
  destruct (matchIteration_Some _ _ _ _ E) as (m' & trade' & b1' & [= <- <-] & F).
  pose proof (pf_top _ _ _ _ _ _ F) as Htop'.
  rewrite Htop in Htop'. by injection Htop' as ->.
Qed.

Lemma matchOrder_Ok t b :
  exists run b',
    matchOrder t b = Ok (map snd run, b') /\
    iterates (sideOf (deref b t)) t b run b'.
Proof.
  unfold matchOrder. fold (sideOf (deref b t)).
  destruct (matchLoop_total (sideOf (deref b t)) t
              (S (length (opposite (sideOf (deref b t)) b))) [] b)
    as (trades & b' & E); [left; lia|].
  destruct (matchLoop_iterates _ _ _ _ _ _ _ E) as (run & Hrun & ->).
  exists run, b'. by split.
Qed.

(** What [addOrder] does with an order that is not a stop-loss order. *)
Lemma addOrder_match t b trades b' :
  addOrder (Some t) b = Ok (trades, b') ->
  isStopLoss (deref b t) = false ->
  exists run b1,
    iterates (sideOf (deref b t)) t b run b1 /\
    trades = map snd run /\
    b' = if 0 <? remainingQuantity (deref b1 t) then addToOrderBook t b1
         else b1.
Proof.
  unfold addOrder. destruct (negb _); [discriminate|].
  intros H Hstop. rewrite Hstop in H.
  destruct (matchOrder_Ok t b) as (run & b1 & E & Hrun).
  rewrite E in H. simpl in H. unfold checkStopLossOrders in H.
  exists run, b1. split; [done|].
  destruct (last (map snd run)); by injection H as <- <-.
Qed.

Lemma addOrder_total t b :
  symbol (deref b t) = bookSymbol b ->
  exists trades b', addOrder (Some t) b = Ok (trades, b').
Proof.
  intros Hsym. unfold addOrder.
  rewrite bool_decide_eq_true_2 by done. simpl.
  destruct (isStopLoss (deref b t)); [eauto|].
  destruct (matchOrder_Ok t b) as (run & b1 & -> & _). simpl. eauto.
Qed.

(** ** The Order entity *)

(** C10.  On an order with remaining quantity [r > 0] and for [0 < n <= r],
    [fillOrder n] succeeds, lowers the remaining quantity by exactly [n],
    and returns [true] exactly when the remaining quantity reaches 0; the
    status is then FILLED, and PARTIAL_FILL when it returns [false].
    Nothing else in the order changes. *)
Theorem fillOrder_spec (o : Order) (n : Z) :
  0 < remainingQuantity o -> 0 < n <= remainingQuantity o ->
  exists flag o',
    fillOrder n o = Ok (flag, o') /\
    remainingQuantity o' = remainingQuantity o - n /\
    (flag = true <-> remainingQuantity o' = 0) /\
    (flag = true -> status o' = FILLED) /\
    (flag = false -> status o' = PARTIAL_FILL) /\
    same_identity o o'.
Proof.
  intros _ [Hn Hr]. rewrite fillOrder_Ok by assumption.
  eexists _, _. split; [reflexivity|].
  split; [reflexivity|]. unfold filled; simpl.
  unfold same_identity; simpl.
  destruct (Z.eqb_spec (remainingQuantity o - n) 0) as [E|E];
    repeat split; done.
Qed.

Lemma fillOrder_spec_witness :
  0 < remainingQuantity resting_sell_10 /\
  0 < 7 <= remainingQuantity resting_sell_10 /\
  exists flag o',
    fillOrder 7 resting_sell_10 = Ok (flag, o') /\
    remainingQuantity o' = remainingQuantity resting_sell_10 - 7 /\
    (flag = true <-> remainingQuantity o' = 0) /\
    (flag = true -> status o' = FILLED) /\
    (flag = false -> status o' = PARTIAL_FILL) /\
    same_identity resting_sell_10 o'.
Proof.
  assert (H1 : 0 < remainingQuantity resting_sell_10) by (simpl; lia).
  assert (H2 : 0 < 7 <= remainingQuantity resting_sell_10) by (simpl; lia).
  split; [exact H1|]. split; [exact H2|].
  exact (fillOrder_spec resting_sell_10 7 H1 H2).
Defined.

(** C9.  The constructor throws exactly on the invalid inputs -- empty
    order id, user id or symbol, a quantity that is not positive, a LIMIT
    order whose price is not positive, a STOP_LOSS order whose trigger
    price is not positive -- and otherwise builds the order as given, with
    the remaining quantity equal to the original one and status PENDING. *)
Theorem Order_new_spec (id user sym : string) (ty : OrderType)
    (sd : OrderSide) (px qty trigger now : Z) :
  match Order_new id user sym ty sd px qty trigger now with
  | Ok o =>
      ~ invalid_order id user sym ty px qty trigger /\
      o = mkOrder id user sym ty sd px qty qty PENDING now trigger /\
      remainingQuantity o = quantity o /\ status o = PENDING
  | Throw (invalid_argument _) => invalid_order id user sym ty px qty trigger
  | OutOfFuel => False
  end.
Proof.
  unfold Order_new, invalid_order.
  destruct id as [|c1 id]; simpl; [tauto|].
  destruct user as [|c2 user]; simpl; [tauto|].
  destruct sym as [|c3 sym]; simpl; [tauto|].
  destruct (Z.leb_spec qty 0); [tauto|].
  case_bool_decide; simpl.
  - destruct (Z.leb_spec px 0); [tauto|].
    case_bool_decide; [congruence|]. simpl.
    repeat split; try done. intros [?|[?|[?|[?|[[_ ?]|[? _]]]]]]; try done; lia.
  - case_bool_decide; simpl.
    + destruct (Z.leb_spec trigger 0); [tauto|].
      repeat split; try done.
      intros [?|[?|[?|[?|[[? _]|[_ ?]]]]]]; try done; lia.
    + repeat split; try done.
      intros [?|[?|[?|[?|[[? _]|[? _]]]]]]; try done; lia.
Qed.

(** ** What a pass preserves *)

Lemma deref_lookup b b' x : mem b' !! x = mem b !! x -> deref b' x = deref b x.
Proof. unfold deref. rewrite !lookup_total_alt. by intros ->. Qed.

Lemma pass_cases s t b m trade b' x :
  pass_facts s t b m trade b' ->
  deref b' x = deref b x \/
  ((x = t \/ x = m) /\ deref b' x = filled (trade_quantity trade) (deref b x)).
Proof.
  intros F. destruct (decide (x = t)) as [->|Ht].
  { right. split; [by left|]. apply (pf_taker _ _ _ _ _ _ F). }
  destruct (decide (x = m)) as [->|Hm].
  { right. split; [by right|]. apply (pf_maker _ _ _ _ _ _ F). }
  left. apply deref_lookup, (pf_others _ _ _ _ _ _ F); done.
Qed.

Lemma pass_identity s t b m trade b' x :
  pass_facts s t b m trade b' -> same_identity (deref b x) (deref b' x).
Proof.
  intros F. destruct (pass_cases _ _ _ _ _ _ x F) as [->|[_ ->]].
  - apply same_identity_refl.
  - apply filled_identity.
Qed.

Lemma pass_opposite_subset s t b m trade b' x :
  pass_facts s t b m trade b' -> x ∈ opposite s b' -> x ∈ opposite s b.
Proof.
  intros F. rewrite (pf_opposite _ _ _ _ _ _ F).
  pose proof (pq_top_elem _ _ _ (pf_top _ _ _ _ _ _ F)) as Hm.
  destruct (0 <? _).
  - rewrite elem_of_app. intros [H|H].
    + by eapply remove_first_subset.
    + apply list_elem_of_singleton in H. by subst.
  - apply remove_first_subset.
Qed.

Lemma pass_opposite_keeps s t b m trade b' x :
  pass_facts s t b m trade b' -> x <> m -> x ∈ opposite s b ->
  x ∈ opposite s b'.
Proof.
  intros F Hne Hx. rewrite (pf_opposite _ _ _ _ _ _ F).
  pose proof (remove_first_other m _ x Hne Hx) as H.
  destruct (0 <? _); [apply elem_of_app; by left | done].
Qed.

(** ** Runs of the loop *)




(** The identity of every order along a run. *)
Lemma iterates_identity s t b run b' x :
  iterates s t b run b' -> same_identity (deref b x) (deref b' x).
Proof.
  induction 1 as [b _|b m trade b1 run b' Htop E _ IH];
    [apply same_identity_refl|].
  pose proof (iterates_pass_facts _ _ _ _ _ _ Htop E) as F.
  eapply same_identity_trans; [|exact IH]. by eapply pass_identity.
Qed.

(** ** Price-time priority *)

Section Priority.
Variables (s : OrderSide) (t A B : ptr).




End Priority.

Lemma addToOrderBook_mem p b : mem (addToOrderBook p b) = mem b.
Proof. unfold addToOrderBook. by destruct (isBuy _). Qed.


Lemma remove_first_NoDup (x : ptr) (q : list ptr) :
  NoDup q -> NoDup (remove_first x q) /\ x ∉ remove_first x q.
Proof.
  induction q as [|y q IH]; intros Hnd; simpl.
  { split; [constructor | apply not_elem_of_nil]. }
  apply NoDup_cons in Hnd as [Hy Hnd].
  destruct (decide (x = y)) as [->|Hne]; [done|].
  destruct (IH Hnd) as [H1 H2]. split.
  - apply NoDup_cons. split; [|done].
    intros H. apply Hy. by eapply remove_first_subset.
  - intros H. apply elem_of_cons in H as [?|?]; done.
Qed.









(** ** The trade price *)

Lemma iterates_price_policy s t b0 b run b' :
  iterates s t b run b' ->
  type (deref b0 t) <> STOP_LOSS ->
  (forall x, same_identity (deref b0 x) (deref b x)) ->
  (forall x, x ∈ opposite s b -> x ∈ opposite s b0) ->
  follows_price_policy s b0 t (lastTradePrice b) run.
Proof.
  induction 1 as [b _|b m trade b1 run b' Htop E _ IH];
    intros Hty Hid Hsub; [exact I|].
  pose proof (iterates_pass_facts _ _ _ _ _ _ Htop E) as F.
  destruct (Hid m) as (Hidm & _ & _ & Htym & _ & Hpm & _).
  destruct (Hid t) as (Hidt & _ & _ & Htyt & _ & Hpt & _).
  pose proof (pf_price _ _ _ _ _ _ F) as Hprice.
  unfold isMarket in Hprice. rewrite Htym, Htyt, Hpm, Hpt in Hprice.
  simpl. split; [apply Hsub; eapply pq_top_elem, Htop|].
  split; [by rewrite (pf_makerId _ _ _ _ _ _ F)|].
  split; [by rewrite (pf_takerId _ _ _ _ _ _ F)|].
  split; [|split; [|split]].
  - intros Hm. by rewrite bool_decide_eq_false_2 in Hprice.
  - intros Hm Ht. rewrite bool_decide_eq_true_2 in Hprice by done.
    rewrite bool_decide_eq_false_2 in Hprice by congruence. done.
  - intros Hm Ht. rewrite bool_decide_eq_true_2 in Hprice by done.
    rewrite bool_decide_eq_true_2 in Hprice; [done|].
    destruct (type (deref b0 t)); done.
  - rewrite <- (pf_last _ _ _ _ _ _ F). apply IH; [done|..].
    + intros x. eapply same_identity_trans; [apply Hid|].
      by eapply pass_identity.
    + intros x Hx. apply Hsub. by eapply pass_opposite_subset.
Qed.

(** C1, as the code has it.  Every trade [addOrder] returns was made
    against an order resting in the opposite queue, at that order's posted
    price; when the resting order is a MARKET order the price is the
    incoming order's price if that one is a LIMIT order, and otherwise the
    last trade price as it stood just before the trade -- the price of the
    previous trade of the call, or the book's [lastTradePrice] for the
    first one -- whatever that value is, 0 included. *)
Theorem trade_price_policy (b : OrderBook) (t : ptr) trades b' :
  addOrder (Some t) b = Ok (trades, b') ->
  exists run,
    trades = map snd run /\
    follows_price_policy (sideOf (deref b t)) b t (lastTradePrice b) run.
Proof.
  intros Hadd. destruct (isStopLoss (deref b t)) eqn:Hstop.
  - unfold addOrder in Hadd. destruct (negb _); [discriminate|].
    rewrite Hstop in Hadd. injection Hadd as <- _. by exists [].
  - destruct (addOrder_match _ _ _ _ Hadd Hstop) as (run & b1 & Hrun & -> & _).
    exists run. split; [done|].
    eapply iterates_price_policy; [exact Hrun|..].
    + unfold isStopLoss in Hstop. by apply bool_decide_eq_false in Hstop.
    + intros x. apply same_identity_refl.
    + done.
Qed.

Lemma trade_price_policy_witness :
  let b := market_sell_and_buyer.2 in
  exists b',
    addOrder (Some 1%nat) b =
      Ok ([mkTrade "TRADE_AAPL_1" "M2" "M1" "AAPL" 0 5], b') /\
    exists run,
      [mkTrade "TRADE_AAPL_1" "M2" "M1" "AAPL" 0 5] = map snd run /\
      follows_price_policy (sideOf (deref b 1%nat)) b 1%nat (lastTradePrice b)
                           run.
Proof.
  intros b.
  assert (E : exists b', addOrder (Some 1%nat) b =
                Ok ([mkTrade "TRADE_AAPL_1" "M2" "M1" "AAPL" 0 5], b'))
    by (eexists; vm_compute; reflexivity).
  destruct E as [b' E]. clearbody b.
  exists b'. split; [exact E|].
  exact (trade_price_policy b 1%nat _ b' E).
Defined.

(** C1 as stated fails: with a MARKET SELL resting, no trade yet
    ([lastTradePrice = 0]) and a MARKET BUY coming in, the buy is not
    rejected; the two orders trade at price 0 and the buy ends FILLED. *)
Lemma market_orders_trade_at_zero :
  lastTradePrice market_sell_rests = 0 /\
  type (deref market_sell_rests 0%nat) = MARKET /\
  sellOrders market_sell_rests = [0%nat] /\
  exists b',
    submit "M2" "bob" "AAPL" MARKET BUY 0 5 0 2 market_sell_rests =
      Ok (1%nat, [mkTrade "TRADE_AAPL_1" "M2" "M1" "AAPL" 0 5], b') /\
    status (deref b' 1%nat) = FILLED /\
    status (deref b' 1%nat) <> REJECTED.
Proof.
  split; [vm_compute; reflexivity|]. split; [vm_compute; reflexivity|].
  split; [vm_compute; reflexivity|].
  eexists. split; [vm_compute; reflexivity|].
  split; [vm_compute; reflexivity | vm_compute; discriminate].
Qed.

(** ** Market orders *)

Lemma sideOf_identity o o' : same_identity o o' -> sideOf o' = sideOf o.
Proof.
  intros (_&_&_&_&Hs&_). unfold sideOf, isBuy. by rewrite Hs.
Qed.

Lemma addToOrderBook_spec p b :
  orderMap (addToOrderBook p b) !! orderId (deref b p) = Some p /\
  p ∈ userOrders (addToOrderBook p b) !!! userId (deref b p) /\
  p ∈ own (sideOf (deref b p)) (addToOrderBook p b).
Proof.
  unfold addToOrderBook, sideOf.
  destruct (isBuy (deref b p)); simpl;
    rewrite lookup_insert_eq, lookup_total_insert_eq;
    (split; [done|]); split; apply elem_of_app; right; left.
Qed.

Lemma iterates_nil s t b b' : iterates s t b [] b' -> b' = b.
Proof. by inversion 1. Qed.

(** After at least one pass the incoming order's status is the one its
    last fill left. *)
Lemma iterates_taker_status s t b run b' :
  iterates s t b run b' -> run <> [] ->
  status (deref b' t) =
    if remainingQuantity (deref b' t) =? 0 then FILLED else PARTIAL_FILL.
Proof.
  induction 1 as [b _|b m trade b1 run b' Htop E Hrun IH]; intros Hne;
    [done|].
  destruct run as [|x run]; [|by apply IH].
  apply iterates_nil in Hrun as ->.
  pose proof (iterates_pass_facts _ _ _ _ _ _ Htop E) as F.
  by rewrite (pf_taker _ _ _ _ _ _ F).
Qed.

(** The incoming order loses what the trades of the run add up to, and
    the queue of its own side is not touched by the loop. *)
Lemma iterates_taker_remaining s t b run b' :
  iterates s t b run b' ->
  remainingQuantity (deref b' t) =
    remainingQuantity (deref b t) - traded_quantity (map snd run) /\
  own s b' = own s b.
Proof.
  induction 1 as [b _|b m trade b1 run b' Htop E _ IH].
  { unfold traded_quantity. simpl. split; [lia|done]. }
  pose proof (iterates_pass_facts _ _ _ _ _ _ Htop E) as F.
  destruct (pass_facts_remaining _ _ _ _ _ _ F) as (_ & Hr & _).
  destruct IH as [-> ->]. rewrite Hr, (pf_own _ _ _ _ _ _ F).
  unfold traded_quantity. simpl. split; [lia|done].
Qed.

Lemma addToOrderBook_own p b :
  own (sideOf (deref b p)) (addToOrderBook p b) =
  own (sideOf (deref b p)) b ++ [p].
Proof. unfold addToOrderBook, sideOf. by destruct (isBuy _). Qed.

(** C2, as the code has it.  [addOrder] keeps what is left of a MARKET
    order.  When it returns, the order's remaining quantity is what it had
    less the quantities of the returned trades, and it keeps its type and
    everything else but quantity and status: nothing is discarded.  If
    that remainder is positive the order is pushed at the end of the queue
    of its side and recorded in the id and user indices, like a LIMIT
    order; if nothing remains the queue of its side is as before.  Its
    status is what the fills made it: untouched when nothing traded,
    PARTIAL_FILL after trades that leave a remainder, FILLED after trades
    that leave none; it is never set to REJECTED.  A MARKET BUY on a book
    without asks produces no trade. *)
Theorem market_remainder_rests (b : OrderBook) (t : ptr) trades b' :
  addOrder (Some t) b = Ok (trades, b') ->
  type (deref b t) = MARKET ->
  remainingQuantity (deref b' t) =
    remainingQuantity (deref b t) - traded_quantity trades /\
  same_identity (deref b t) (deref b' t) /\
  (0 < remainingQuantity (deref b' t) ->
   own (sideOf (deref b t)) b' = own (sideOf (deref b t)) b ++ [t] /\
   orderMap b' !! orderId (deref b t) = Some t /\
   t ∈ userOrders b' !!! userId (deref b t)) /\
  (remainingQuantity (deref b' t) <= 0 ->
   own (sideOf (deref b t)) b' = own (sideOf (deref b t)) b) /\
  (trades = [] -> deref b' t = deref b t) /\
  (trades <> [] ->
   status (deref b' t) =
     if remainingQuantity (deref b' t) =? 0 then FILLED else PARTIAL_FILL) /\
  (status (deref b' t) = REJECTED -> status (deref b t) = REJECTED) /\
  (side (deref b t) = BUY -> sellOrders b = [] -> trades = []).
Proof.
  intros Hadd Hty.
  assert (Hstop : isStopLoss (deref b t) = false).
  { unfold isStopLoss. rewrite Hty. by apply bool_decide_eq_false_2. }
  destruct (addOrder_match _ _ _ _ Hadd Hstop) as (run & b1 & Hrun & -> & ->).
  set (b' := if 0 <? remainingQuantity (deref b1 t) then addToOrderBook t b1
             else b1).
  assert (Hd : forall x, deref b' x = deref b1 x).
  { intros x. subst b'. destruct (0 <? _); [|done].
    unfold deref. by rewrite addToOrderBook_mem. }
  pose proof (iterates_identity _ _ _ _ _ t Hrun) as Hid.
  destruct (iterates_taker_remaining _ _ _ _ _ Hrun) as [Hrem Hown].
  assert (Hnil : map snd run = [] -> deref b' t = deref b t).
  { intros Hnil. destruct run; [|done].
    apply iterates_nil in Hrun. rewrite Hd. by subst b1. }
  assert (Hst : map snd run <> [] ->
                status (deref b' t) =
                  if remainingQuantity (deref b' t) =? 0 then FILLED
                  else PARTIAL_FILL).
  { intros Hne. rewrite !Hd. eapply iterates_taker_status; [exact Hrun|].
    by destruct run. }
  split; [by rewrite Hd|]. split; [by rewrite Hd|].
  split; [|split; [|split; [|split; [|split]]]].
  - rewrite Hd. intros Hpos. subst b'.
    rewrite (proj2 (Z.ltb_lt _ _) Hpos).
    destruct (addToOrderBook_spec t b1) as (H1 & H2 & _).
    pose proof (addToOrderBook_own t b1) as H3.
    rewrite (sideOf_identity _ _ Hid), Hown in H3.
    destruct Hid as (Hi & Hu & _). rewrite Hi in H1. rewrite Hu in H2. done.
  - rewrite Hd. intros Hle. subst b'.
    destruct (Z.ltb_spec 0 (remainingQuantity (deref b1 t))); [lia|done].
  - exact Hnil.
  - exact Hst.
  - intros Hrej. destruct (map snd run) as [|T l] eqn:Hl.
    + rewrite <- Hnil; done.
    + rewrite Hst in Hrej by done. by destruct (_ =? _).
  - intros Hbuy Hempty.
    assert (Hs : sideOf (deref b t) = BUY).
    { unfold sideOf, isBuy. by rewrite bool_decide_eq_true_2. }
    rewrite Hs in Hrun.
    inversion Hrun as [|? m ? ? ? ? Htop]; [done|].
    simpl in Htop. by rewrite Hempty in Htop.
Qed.

Lemma market_remainder_rests_witness :
  (let b := one_sell_and_market_buyer.2 in
   let T := mkTrade "TRADE_AAPL_1" "M2" "S1" "AAPL" 100 5 in
   exists b',
     addOrder (Some 1%nat) b = Ok ([T], b') /\
     type (deref b 1%nat) = MARKET /\
     remainingQuantity (deref b' 1%nat) =
       remainingQuantity (deref b 1%nat) - traded_quantity [T] /\
     own (sideOf (deref b 1%nat)) b' =
       own (sideOf (deref b 1%nat)) b ++ [1%nat] /\
     orderMap b' !! orderId (deref b 1%nat) = Some 1%nat /\
     status (deref b' 1%nat) = PARTIAL_FILL) /\
  (let b := fresh_and_market_buyer.2 in
   exists b',
     addOrder (Some 0%nat) b = Ok ([], b') /\
     type (deref b 0%nat) = MARKET /\
     deref b' 0%nat = deref b 0%nat).
Proof.
  split; [|intros b;
    assert (E : exists b', addOrder (Some 0%nat) b = Ok ([], b'))
      by (eexists; vm_compute; reflexivity);
    destruct E as [b' E];
    assert (Hty : type (deref b 0%nat) = MARKET) by (vm_compute; reflexivity);
    clearbody b;
    exists b'; split; [exact E|]; split; [exact Hty|];
    exact (proj1 (proj2 (proj2 (proj2 (proj2
             (market_remainder_rests b 0%nat [] b' E Hty))))) eq_refl)].
  intros b T.
  assert (E : exists b', addOrder (Some 1%nat) b = Ok ([T], b') /\
                         0 < remainingQuantity (deref b' 1%nat) /\
                         (remainingQuantity (deref b' 1%nat) =? 0) = false).
  { eexists. split; [vm_compute; reflexivity|].
    split; vm_compute; reflexivity. }
  destruct E as (b' & E & Hpos & Hnz).
  assert (Hty : type (deref b 1%nat) = MARKET) by (vm_compute; reflexivity).
  clearbody b.
  exists b'. split; [exact E|]. split; [exact Hty|].
  destruct (market_remainder_rests b 1%nat [T] b' E Hty)
    as (H1 & _ & H2 & _ & _ & H5 & _).
  split; [exact H1|]. destruct (H2 Hpos) as (H21 & H22 & _).
  split; [exact H21|]. split; [exact H22|].
  assert (Hne : [T] <> []) by discriminate.
  rewrite (H5 Hne), Hnz. reflexivity.
Defined.

(** C2 as stated fails.  On a fresh book (S5) a MARKET BUY for 5 produces
    no trade, and instead of being rejected and dropped it stays PENDING
    and rests in the buy queue and in the id index.  And against a resting
    sell for 5, a MARKET BUY for 8 trades 5 and keeps the other 3: it is
    PARTIAL_FILL, not FILLED, and rests in the buy queue and in the id
    index with quantity 3. *)
Lemma unfilled_market_order_rests :
  (exists b',
     submit "M1" "alice" "AAPL" MARKET BUY 0 5 0 1 (OrderBook_new "AAPL") =
       Ok (0%nat, [], b') /\
     status (deref b' 0%nat) = PENDING /\
     status (deref b' 0%nat) <> REJECTED /\
     remainingQuantity (deref b' 0%nat) = 5 /\
     buyOrders b' = [0%nat] /\
     orderMap b' !! "M1" = Some 0%nat) /\
  (exists b',
     submit "M2" "bob" "AAPL" MARKET BUY 0 8 0 2 one_sell =
       Ok (1%nat, [mkTrade "TRADE_AAPL_1" "M2" "S1" "AAPL" 100 5], b') /\
     status (deref b' 1%nat) = PARTIAL_FILL /\
     status (deref b' 1%nat) <> FILLED /\
     remainingQuantity (deref b' 1%nat) = 3 /\
     buyOrders b' = [1%nat] /\
     orderMap b' !! "M2" = Some 1%nat).
Proof.
  split.
  - eexists. split; [vm_compute; reflexivity|].
    split; [vm_compute; reflexivity|]. split; [vm_compute; discriminate|].
    vm_compute. repeat split.
  - eexists. split; [vm_compute; reflexivity|].
    split; [vm_compute; reflexivity|]. split; [vm_compute; discriminate|].
    vm_compute. repeat split.
Qed.

(** ** Stop-loss orders *)

Section AVLTreeFacts.
Context {T : Type} (comp : T -> T -> bool).

Lemma inOrder_rotateRight (y : Node T) : inOrder (rotateRight y) = inOrder y.
Proof.
  destruct y as [|yd [|xd xl T2 xh] yr yh]; simpl; try done.
  by rewrite <- app_assoc.
Qed.

Lemma inOrder_rotateLeft (x : Node T) : inOrder (rotateLeft x) = inOrder x.
Proof.
  destruct x as [|xd xl [|yd T2 yr yh] xh]; simpl; try done.
  by rewrite <- app_assoc.
Qed.

Lemma inOrder_rebalance d (l r : Node T) data :
  inOrder (rebalance comp d l r data) = inOrder l ++ d :: inOrder r.
Proof.
  unfold rebalance.
  repeat match goal with
         | |- context [if ?c then _ else _] => destruct c
         end;
    rewrite ?inOrder_rotateRight, ?inOrder_rotateLeft; simpl;
    rewrite ?inOrder_rotateRight, ?inOrder_rotateLeft; done.
Qed.

(** Insertion removes nothing from the tree. *)
Lemma inOrder_insert (node : Node T) data x :
  x ∈ inOrder node -> x ∈ inOrder (insert comp node data).
Proof.
  induction node as [|d l IHl r IHr h]; simpl.
  { intros H. by apply elem_of_nil in H. }
  intros H.
  destruct (comp data d); [|destruct (comp d data); [|done]];
    rewrite inOrder_rebalance;
    apply elem_of_app in H as [H|H]; apply elem_of_app; auto.
  apply elem_of_cons in H as [->|H]; right; [left | right; auto].
Qed.
End AVLTreeFacts.

Lemma addToOrderBook_frame p b :
  buyStopLossOrders (addToOrderBook p b) = buyStopLossOrders b /\
  sellStopLossOrders (addToOrderBook p b) = sellStopLossOrders b /\
  lastTradePrice (addToOrderBook p b) = lastTradePrice b.
Proof. unfold addToOrderBook. by destruct (isBuy _). Qed.

Lemma iterates_stops s t b run b' :
  iterates s t b run b' ->
  buyStopLossOrders b' = buyStopLossOrders b /\
  sellStopLossOrders b' = sellStopLossOrders b /\
  (forall x, status (deref b' x) = TRIGGERED ->
             status (deref b x) = TRIGGERED) /\
  (forall trade, last (map snd run) = Some trade ->
                 lastTradePrice b' = trade_price trade).
Proof.
  induction 1 as [b _|b m trade b1 run b' Htop E Hrun IH]; [done|].
  pose proof (iterates_pass_facts _ _ _ _ _ _ Htop E) as F.
  destruct IH as (-> & -> & Hst & Hlast).
  split; [apply (pf_buyStops _ _ _ _ _ _ F)|].
  split; [apply (pf_sellStops _ _ _ _ _ _ F)|]. split.
  - intros x Hx. apply Hst in Hx.
    destruct (pass_cases _ _ _ _ _ _ x F) as [<-|[_ Hf]]; [done|].
    rewrite Hf in Hx. unfold filled in Hx; simpl in Hx.
    by destruct (_ =? _).
  - intros tr Htr. destruct run as [|y run].
    + apply iterates_nil in Hrun as ->. simpl in Htr.
      injection Htr as <-. apply (pf_last _ _ _ _ _ _ F).
    + apply Hlast. exact Htr.
Qed.

(** The stop scan in general.  [checkStopLossOrders] has an empty body,
    so no scan takes place after a call that trades: whatever the trade
    prices, [addOrder] removes no order from a stop book and marks no
    order TRIGGERED.  The price handed to [checkStopLossOrders], that of
    the last trade of the call, is the book's [lastTradePrice]. *)
Theorem stop_scan_does_nothing :
  (forall p b, checkStopLossOrders p b = b) /\
  (forall (b : OrderBook) (t : ptr) trades b',
     addOrder (Some t) b = Ok (trades, b') ->
     (forall x, status (deref b' x) = TRIGGERED ->
                status (deref b x) = TRIGGERED) /\
     (forall x, x ∈ inOrder (buyStopLossOrders b) ->
                x ∈ inOrder (buyStopLossOrders b')) /\
     (forall x, x ∈ inOrder (sellStopLossOrders b) ->
                x ∈ inOrder (sellStopLossOrders b')) /\
     (forall trade, last trades = Some trade ->
                    lastTradePrice b' = trade_price trade)).
Proof.
  split; [done|]. intros b t trades b' Hadd.
  destruct (isStopLoss (deref b t)) eqn:Hstop.
  - unfold addOrder in Hadd. destruct (negb _); [discriminate|].
    rewrite Hstop in Hadd. injection Hadd as <- <-.
    destruct (isBuy (deref b t));
      match goal with
      | |- context [addToOrderBook t ?b1] =>
          destruct (addToOrderBook_frame t b1) as (-> & -> & _);
          unfold deref; rewrite addToOrderBook_mem
      end; simpl; repeat split; try done.
    + intros x. apply inOrder_insert.
    + intros x. apply inOrder_insert.
  - destruct (addOrder_match _ _ _ _ Hadd Hstop) as (run & b1 & Hrun & -> & ->).
    destruct (iterates_stops _ _ _ _ _ Hrun) as (Hb & Hs & Hst & Hlast).
    assert (Hfr : forall b2, b2 = (if 0 <? remainingQuantity (deref b1 t)
                                   then addToOrderBook t b1 else b1) ->
                  mem b2 = mem b1 /\
                  buyStopLossOrders b2 = buyStopLossOrders b1 /\
                  sellStopLossOrders b2 = sellStopLossOrders b1 /\
                  lastTradePrice b2 = lastTradePrice b1).
    { intros b2 ->. destruct (0 <? _); [|done].
      destruct (addToOrderBook_frame t b1) as (-> & -> & ->).
      by rewrite addToOrderBook_mem. }
    destruct (Hfr _ eq_refl) as (Hm & -> & -> & ->).
    unfold deref at 1. rewrite Hm, Hb, Hs. done.
Qed.

Lemma stop_scan_does_nothing_witness :
  let b := stop_seed_and_buyer.2 in
  exists b',
    addOrder (Some 3%nat) b =
      Ok ([mkTrade "TRADE_AAPL_1" "B1" "A2" "AAPL" 100 1], b') /\
    (forall x, x ∈ inOrder (buyStopLossOrders b) ->
               x ∈ inOrder (buyStopLossOrders b')) /\
    lastTradePrice b' = 100.
Proof.
  intros b.
  assert (E : exists b', addOrder (Some 3%nat) b =
                Ok ([mkTrade "TRADE_AAPL_1" "B1" "A2" "AAPL" 100 1], b'))
    by (eexists; vm_compute; reflexivity).
  destruct E as [b' E]. clearbody b.
  destruct (proj2 stop_scan_does_nothing b 3%nat _ b' E)
    as (_ & Hbuy & _ & Hlast).
  exists b'. split; [exact E|]. split; [exact Hbuy|].
  exact (Hlast (mkTrade "TRADE_AAPL_1" "B1" "A2" "AAPL" 100 1) eq_refl).
Defined.

(** C4 fails on the code (S6).  [addOrder] calls [checkStopLossOrders]
    with the last trade price, under a comment that says it checks
    whether stop-loss orders should be triggered, and the body of
    [checkStopLossOrders] is empty: the buy
    stop ST with trigger 100 is resting when a trade executes at 100, yet
    it does not fire.  The call returns that one trade only; ST stays
    PENDING, not TRIGGERED, with its 10 units, in the buy stop tree and in
    the id index, and the sell at 120 it would have bought from is
    untouched. *)
Lemma resting_stop_does_not_fire :
  inOrder (buyStopLossOrders stop_and_seed) = [1%nat] /\
  triggerPrice (deref stop_and_seed 1%nat) = 100 /\
  status (deref stop_and_seed 1%nat) = PENDING /\
  exists b',
    submit "B1" "carol" "AAPL" LIMIT BUY 120 1 0 4 stop_and_seed =
      Ok (3%nat, [mkTrade "TRADE_AAPL_1" "B1" "A2" "AAPL" 100 1], b') /\
    triggerPrice (deref b' 1%nat) <= 100 /\
    status (deref b' 1%nat) = PENDING /\
    status (deref b' 1%nat) <> TRIGGERED /\
    remainingQuantity (deref b' 1%nat) = 10 /\
    inOrder (buyStopLossOrders b') = [1%nat] /\
    orderMap b' !! "ST" = Some 1%nat /\
    remainingQuantity (deref b' 0%nat) = 10 /\
    lastTradePrice b' = 100.
Proof.
  split; [vm_compute; reflexivity|]. split; [vm_compute; reflexivity|].
  split; [vm_compute; reflexivity|].
  eexists. split; [vm_compute; reflexivity|].
  split; [vm_compute; discriminate|]. split; [vm_compute; reflexivity|].
  split; [vm_compute; discriminate|].
  vm_compute. repeat split.
Qed.

(** C3 fails on the code.  A stop-loss order is pushed on the queue of its
    side as well as into the stop tree, so the next crossing order trades
    against it: the sell stop ST (trigger 90, price 100) is PENDING, never
    TRIGGERED, and a LIMIT BUY at 100 is matched against it. *)
Lemma pending_stop_is_matched :
  type (deref stop_sell_rests 0%nat) = STOP_LOSS /\
  status (deref stop_sell_rests 0%nat) = PENDING /\
  inOrder (sellStopLossOrders stop_sell_rests) = [0%nat] /\
  sellOrders stop_sell_rests = [0%nat] /\
  orderMap stop_sell_rests !! "ST" = Some 0%nat /\
  lastTradePrice stop_sell_rests = 0 /\
  exists b',
    submit "B1" "bob" "AAPL" LIMIT BUY 100 5 0 2 stop_sell_rests =
      Ok (1%nat, [mkTrade "TRADE_AAPL_1" "B1" "ST" "AAPL" 100 5], b') /\
    deref b' 0%nat =
      mkOrder "ST" "alice" "AAPL" STOP_LOSS SELL 100 5 0 FILLED 1 90.
Proof.
  vm_compute. repeat split. eexists. split; reflexivity.
Qed.

(** [AVLTree::insert] returns the tree as it is on an equal key: of two
    stops with the same trigger price only the first is in the stop
    tree. *)
Lemma second_stop_same_trigger :
  orderMap two_stops_same_trigger !! "ST2" = Some 1%nat /\
  sellOrders two_stops_same_trigger = [0%nat; 1%nat] /\
  inOrder (sellStopLossOrders two_stops_same_trigger) = [0%nat].
Proof. vm_compute. repeat split. Qed.

(** ** The book *)

(** C5 fails on the code.  [cancelOrder] leaves the cancelled sell S1 in
    the sell queue; it stays on top, is compatible with nothing, and stops
    the loop at once.  The buy at 100 that follows is not matched and
    rests: the book shows best bid 100 and best ask 100. *)
Lemma crossed_book_after_cancel :
  cancelOrder "S1" one_sell = (true, sell_cancelled) /\
  exists b',
    submit "B1" "carol" "AAPL" LIMIT BUY 100 5 0 3 sell_cancelled =
      Ok (1%nat, [], b') /\
    buyOrders b' = [1%nat] /\ sellOrders b' = [0%nat] /\
    getBestBid b' = 100 /\ getBestAsk b' = 100 /\
    ~ getBestBid b' < getBestAsk b'.
Proof.
  split; [vm_compute; reflexivity|].
  eexists. split; [vm_compute; reflexivity|].
  vm_compute. repeat split. discriminate.
Qed.

(** C7 fails on the code.  After its cancellation S1 is gone from the id
    index while the sell queue still holds it; and a stop-loss order
    occupies two of the four containers at once, the queue of its side and
    the stop tree. *)
Lemma containers_out_of_step :
  (orderMap one_sell !! "S1" = Some 0%nat /\
   cancelOrder "S1" one_sell = (true, sell_cancelled) /\
   orderMap sell_cancelled !! "S1" = None /\
   userOrders sell_cancelled !! "alice" = Some [] /\
   sellOrders sell_cancelled = [0%nat] /\
   orderId (deref sell_cancelled 0%nat) = "S1") /\
  (orderMap stop_sell_rests !! "ST" = Some 0%nat /\
   sellOrders stop_sell_rests = [0%nat] /\
   inOrder (sellStopLossOrders stop_sell_rests) = [0%nat]).
Proof. vm_compute. repeat split. Qed.

Lemma removeFromOrderBook_spec id b p :
  orderMap b !! id = Some p ->
  orderMap (removeFromOrderBook id b) = delete id (orderMap b) /\
  userOrders (removeFromOrderBook id b) !!! userId (deref b p) =
    filter (fun q => orderId (deref b q) <> id)
           (userOrders b !!! userId (deref b p)) /\
  (forall u, u <> userId (deref b p) ->
             userOrders (removeFromOrderBook id b) !! u = userOrders b !! u).
Proof.
  intros Hp. unfold removeFromOrderBook. rewrite Hp. simpl.
  split; [done|]. split.
  - by rewrite lookup_total_insert_eq.
  - intros u Hu. by rewrite lookup_insert_ne.
Qed.

(** C8, as the code has it.  [cancelOrder] has one failure result,
    [false]: it returns it, and changes nothing in the book, when the id
    is not in the id index.  When the id is in the index the status of
    the order is not looked at: the order becomes CANCELLED (and keeps
    everything else), no other order changes, the id leaves the id index,
    the user's list loses exactly its entries with that id and keeps the
    others in their order, the lists of other users stay, and the result
    is [true]; the call touches nothing else: the two queues, the stop
    trees, the last trade price, the symbol and the counters are as
    before.  The id is then absent, so a second cancellation returns
    [false] and changes nothing. *)
Theorem cancelOrder_spec (b : OrderBook) (id : string) :
  match orderMap b !! id with
  | None => cancelOrder id b = (false, b)
  | Some p =>
      (cancelOrder id b).1 = true /\
      deref (cancelOrder id b).2 p = setStatus CANCELLED (deref b p) /\
      (forall x, x <> p -> deref (cancelOrder id b).2 x = deref b x) /\
      orderMap (cancelOrder id b).2 = delete id (orderMap b) /\
      userOrders (cancelOrder id b).2 !!! userId (deref b p) =
        filter (fun q => orderId (deref b q) <> id)
               (userOrders b !!! userId (deref b p)) /\
      (forall u, u <> userId (deref b p) ->
                 userOrders (cancelOrder id b).2 !! u = userOrders b !! u) /\
      buyOrders (cancelOrder id b).2 = buyOrders b /\
      sellOrders (cancelOrder id b).2 = sellOrders b /\
      buyStopLossOrders (cancelOrder id b).2 = buyStopLossOrders b /\
      sellStopLossOrders (cancelOrder id b).2 = sellStopLossOrders b /\
      lastTradePrice (cancelOrder id b).2 = lastTradePrice b /\
      bookSymbol (cancelOrder id b).2 = bookSymbol b /\
      totalTrades (cancelOrder id b).2 = totalTrades b /\
      totalVolume (cancelOrder id b).2 = totalVolume b /\
      tradeIdCounter (cancelOrder id b).2 = tradeIdCounter b
  end /\
  cancelOrder id (cancelOrder id b).2 = (false, (cancelOrder id b).2).
Proof.
  assert (Hc : cancelOrder id b =
               match orderMap b !! id with
               | Some p =>
                   (true,
                    removeFromOrderBook id
                      (set_mem (<[p := setStatus CANCELLED (deref b p)]>
                                  (mem b)) b))
               | None => (false, b)
               end) by reflexivity.
  destruct (orderMap b !! id) as [p|] eqn:Hp; rewrite Hc; cbn [fst snd].
  - set (b1 := set_mem _ b).
    assert (Hp1 : orderMap b1 !! id = Some p) by done.
    destruct (removeFromOrderBook_spec id b1 p Hp1) as (Hom & Hu & Hother).
    destruct (removeFromOrderBook_frame id b1)
      as (Hm & F1 & F2 & F3 & F4 & F5 & F6).
    assert (Hcnt : totalTrades (removeFromOrderBook id b1) = totalTrades b /\
                   totalVolume (removeFromOrderBook id b1) = totalVolume b /\
                   tradeIdCounter (removeFromOrderBook id b1) =
                     tradeIdCounter b).
    { unfold removeFromOrderBook. by rewrite Hp1. }
    assert (Hdp : deref b1 p = setStatus CANCELLED (deref b p)).
    { unfold deref at 1. simpl. by rewrite lookup_total_insert_eq. }
    assert (Hdx : forall x, x <> p -> deref b1 x = deref b x).
    { intros x Hx. unfold deref at 1. simpl.
      by rewrite lookup_total_insert_ne. }
    assert (Hid : forall q, orderId (deref b1 q) = orderId (deref b q)).
    { intros q. destruct (decide (q = p)) as [->|Hq];
        [by rewrite Hdp | by rewrite Hdx]. }
    assert (Huser : userId (deref b1 p) = userId (deref b p))
      by (by rewrite Hdp).
    rewrite Huser in Hu, Hother.
    split; [split; [reflexivity|]|].
    + split; [unfold deref at 1; rewrite Hm; exact Hdp|].
      split; [intros x Hx; unfold deref at 1; rewrite Hm; by apply Hdx|].
      split; [exact Hom|]. split.
      { rewrite Hu. apply list_filter_iff. intros q. by rewrite Hid. }
      split; [exact Hother|].
      rewrite F1, F2, F4, F5, F6, F3. destruct Hcnt as (-> & -> & ->).
      done.
    + unfold cancelOrder. rewrite Hom, lookup_delete_eq. done.
  - split; [done|]. unfold cancelOrder. by rewrite Hp.
Qed.

(** C8 as stated fails in two ways.  The status is not checked: in
    [filled_in_index] the id O1 is in the index for a FILLED order, and
    cancelling it returns [true] and changes the book (the order turns
    CANCELLED and leaves the index).  And the cancelled order is not taken
    out of its queue: after cancelling the resting sell S1 the sell queue
    still holds it. *)
Lemma cancel_checks_no_status :
  (orderMap filled_in_index !! "O1" = Some 1%nat /\
   status (deref filled_in_index 1%nat) = FILLED /\
   (cancelOrder "O1" filled_in_index).1 = true /\
   (cancelOrder "O1" filled_in_index).2 <> filled_in_index /\
   status (deref (cancelOrder "O1" filled_in_index).2 1%nat) = CANCELLED /\
   orderMap (cancelOrder "O1" filled_in_index).2 !! "O1" = None) /\
  (orderMap one_sell !! "S1" = Some 0%nat /\
   status (deref one_sell 0%nat) = PENDING /\
   sellOrders one_sell = [0%nat] /\
   (cancelOrder "S1" one_sell).1 = true /\
   status (deref (cancelOrder "S1" one_sell).2 0%nat) = CANCELLED /\
   sellOrders (cancelOrder "S1" one_sell).2 = [0%nat]).
Proof.
  split.
  - split; [vm_compute; reflexivity|]. split; [vm_compute; reflexivity|].
    split; [vm_compute; reflexivity|].
    split; [|split; vm_compute; reflexivity].
    intros H. apply (f_equal (fun b => orderMap b !! "O1")) in H.
    revert H. vm_compute. discriminate.
  - vm_compute. repeat split.
Qed.


(** * Further properties *)

(** ** Orders *)

(** X1.  Compatibility is symmetric: [a.isCompatibleWith(b)] and
    [b.isCompatibleWith(a)] always agree. *)
Theorem isCompatibleWith_sym (o other : Order) :
  isCompatibleWith o other = isCompatibleWith other o.
Proof.
  unfold isCompatibleWith, isBuy, isSell, isMarket.
  destruct o as [i1 u1 s1 t1 d1 p1 q1 r1 st1 ts1 tp1].
  destruct other as [i2 u2 s2 t2 d2 p2 q2 r2 st2 ts2 tp2]. simpl.
  destruct (decide (s1 = s2)) as [->|Hs].
  2:{ rewrite (bool_decide_eq_false_2 (s1 = s2)), (bool_decide_eq_false_2 (s2 = s1)) by congruence. reflexivity. }
  rewrite !bool_decide_eq_true_2 by done. simpl.
  destruct d1, d2, (r1 <=? 0), (r2 <=? 0); try reflexivity;
    destruct st1, st2; try reflexivity;
    destruct t1, t2; reflexivity.
Qed.

Ltac Zbool :=
  repeat match goal with
         | |- context [?a =? ?b] => destruct (Z.eqb_spec a b)
         | |- context [?a <? ?b] => destruct (Z.ltb_spec a b)
         | |- context [?a <=? ?b] => destruct (Z.leb_spec a b)
         | H : context [?a =? ?b] |- _ => destruct (Z.eqb_spec a b)
         | H : context [?a <? ?b] |- _ => destruct (Z.ltb_spec a b)
         | H : context [?a <=? ?b] |- _ => destruct (Z.leb_spec a b)
         end.

(** X2.  Among orders of one side [operator<] is a strict order that only
    ties on equal price and timestamp: it is irreflexive, and for [a] and
    [b] of the same side it is asymmetric and transitive (whatever the
    third order), and when it puts neither of [a], [b] before the other
    they have the same price and the same timestamp.  [operator>] is its
    converse. *)
Theorem Order_lt_strict (a b c : Order) :
  side a = side b ->
  Order_lt a a = false /\
  (Order_lt a b = true -> Order_lt b a = false) /\
  (Order_lt a b = true -> Order_lt b c = true -> Order_lt a c = true) /\
  (Order_lt a b = false -> Order_lt b a = false ->
   price a = price b /\ timestamp a = timestamp b) /\
  Order_gt a b = Order_lt b a.
Proof.
  intros Hab. unfold Order_gt, Order_lt. rewrite <- Hab.
  case_bool_decide; simpl; repeat split; intros; Zbool; simpl in *;
    try done; lia.
Qed.

Lemma Order_lt_strict_witness :
  side buy_99 = side buy_100_late /\
  Order_lt buy_99 buy_100_late = true /\
  Order_lt buy_100_late buy_100_early = true /\
  Order_lt buy_99 buy_100_early = true.
Proof.
  assert (H1 : side buy_99 = side buy_100_late) by reflexivity.
  split; [exact H1|].
  split; [reflexivity|]. split; [reflexivity|].
  exact (proj1 (proj2 (proj2 (Order_lt_strict buy_99 buy_100_late
                                 buy_100_early H1)))
               eq_refl eq_refl).
Defined.

(** X3.  The heap comparators of Order.hpp are [operator<] of the first
    order: [BuyOrderComparator] when it is a BUY order,
    [SellOrderComparator] when it is a SELL order. *)
Theorem comparators_are_Order_lt (m : gmap ptr Order) (a b : ptr) :
  (side (m !!! a) = BUY ->
   BuyOrderComparator m a b = Order_lt (m !!! a) (m !!! b)) /\
  (side (m !!! a) = SELL ->
   SellOrderComparator m a b = Order_lt (m !!! a) (m !!! b)).
Proof.
  unfold BuyOrderComparator, SellOrderComparator, Order_lt.
  split; intros ->; reflexivity.
Qed.

Lemma comparators_are_Order_lt_witness :
  side (mem two_sells !!! 0%nat) = SELL /\
  SellOrderComparator (mem two_sells) 0%nat 1%nat =
    Order_lt (mem two_sells !!! 0%nat) (mem two_sells !!! 1%nat).
Proof.
  assert (H : side (mem two_sells !!! 0%nat) = SELL)
    by (vm_compute; reflexivity).
  split; [exact H|].
  exact (proj2 (comparators_are_Order_lt (mem two_sells) 0%nat 1%nat) H).
Defined.

(** X4.  On every order [fillOrder] throws exactly when the quantity is
    not positive or exceeds the remaining quantity.  And fills add up:
    when [n1] and [n2] are positive and [n1 + n2] does not exceed the
    remaining quantity, two successive fills of [n1] and [n2] units leave
    the order as one fill of [n1 + n2] units does, and return what that
    fill returns. *)
Theorem fillOrder_compose (o : Order) (n1 n2 : Z) :
  (forall n, (exists e, fillOrder n o = Throw e) <->
             n <= 0 \/ remainingQuantity o < n) /\
  (0 < n1 -> 0 < n2 -> n1 + n2 <= remainingQuantity o ->
   exists f1 o1,
     fillOrder n1 o = Ok (f1, o1) /\
     fillOrder n2 o1 = fillOrder (n1 + n2) o).
Proof.
  split.
  - intros n. unfold fillOrder. split.
    + intros [e He].
      destruct (Z.leb_spec n 0); [by left|].
      destruct (Z.ltb_spec (remainingQuantity o) n); [by right|].
      simpl in He. destruct (_ =? _); discriminate.
    + intros Hn.
      destruct (Z.leb_spec n 0); [simpl; eauto|].
      destruct (Z.ltb_spec (remainingQuantity o) n); [simpl; eauto|]. lia.
  - intros H1 H2 H12.
    rewrite fillOrder_Ok by lia. eexists _, _. split; [reflexivity|].
    rewrite !fillOrder_Ok by (unfold filled; simpl; lia).
    unfold filled; simpl.
    replace (remainingQuantity o - n1 - n2)
      with (remainingQuantity o - (n1 + n2)) by lia.
    reflexivity.
Qed.

Lemma fillOrder_compose_witness :
  0 < 3 /\ 0 < 4 /\ 3 + 4 <= remainingQuantity resting_sell_10 /\
  exists f1 o1,
    fillOrder 3 resting_sell_10 = Ok (f1, o1) /\
    fillOrder 4 o1 = fillOrder (3 + 4) resting_sell_10.
Proof.
  assert (H1 : 0 < 3) by lia. assert (H2 : 0 < 4) by lia.
  assert (H3 : 3 + 4 <= remainingQuantity resting_sell_10) by (simpl; lia).
  split; [exact H1|]. split; [exact H2|]. split; [exact H3|].
  exact (proj2 (fillOrder_compose resting_sell_10 3 4) H1 H2 H3).
Defined.

(** X5.  [setQuantity] throws exactly when the new quantity is not
    positive.  Otherwise both the quantity and the remaining quantity
    become the new quantity, whatever was filled before, and nothing else
    changes -- the status in particular: an order that is FILLED or
    CANCELLED stays incompatible with every order. *)
Theorem setQuantity_spec (o : Order) (n : Z) :
  match setQuantity n o with
  | Ok o' =>
      0 < n /\
      o' = mkOrder (orderId o) (userId o) (symbol o) (type o) (side o)
                   (price o) n n (status o) (timestamp o) (triggerPrice o) /\
      (forall other,
         status o = FILLED \/ status o = CANCELLED ->
         isCompatibleWith o' other = false /\
         isCompatibleWith other o' = false)
  | Throw _ => n <= 0
  | OutOfFuel => False
  end.
Proof.
  unfold setQuantity. destruct (Z.leb_spec n 0); [done|].
  split; [done|]. split; [done|].
  intros other Hst. unfold isCompatibleWith. simpl.
  split.
  - destruct (negb _); [done|]. destruct (bool_decide _); [done|].
    destruct (_ || _); [done|].
    destruct Hst as [-> | ->]; destruct (status other); reflexivity.
  - destruct (negb _); [done|]. destruct (bool_decide _); [done|].
    destruct (_ || _); [done|].
    destruct Hst as [-> | ->]; destruct (status other); reflexivity.
Qed.


(** ** Price levels *)

Lemma int_wrap_id z : in_int z -> int_wrap z = z.
Proof.
  unfold in_int, INT_MIN, INT_MAX, int_wrap. intros H.
  rewrite Z.mod_small by lia. lia.
Qed.

Lemma int_wrap_add_l a c : int_wrap (int_wrap a + c) = int_wrap (a + c).
Proof.
  unfold int_wrap.
  replace ((a + 2147483648) mod 4294967296 - 2147483648 + c + 2147483648)
    with ((a + 2147483648) mod 4294967296 + c) by lia.
  rewrite Zplus_mod_idemp_l. do 2 f_equal. lia.
Qed.

(** What the loop of [removeOrder] leaves: the aggregates are untouched
    when no order has the id, and otherwise are the old values less what
    was removed, in [int] arithmetic. *)
Lemma removeOrder_loop_spec (m : gmap ptr Order) id q : forall temp found tq oc,
  removeOrder_loop m id q temp found tq oc =
  (temp ++ filter (fun p => orderId (m !!! p) <> id) q,
   match last (filter (fun p => orderId (m !!! p) = id) q) with
   | Some p => Some p
   | None => found
   end,
   match filter (fun p => orderId (m !!! p) = id) q with
   | [] => tq
   | removed =>
       int_wrap (tq - foldr Z.add 0
                        (map (fun p => remainingQuantity (m !!! p)) removed))
   end,
   match filter (fun p => orderId (m !!! p) = id) q with
   | [] => oc
   | removed => int_wrap (oc - Z.of_nat (length removed))
   end).
Proof.
  induction q as [|p q IH]; intros temp found tq oc; simpl.
  - by rewrite app_nil_r.
  - case_bool_decide as Hid.
    + rewrite IH.
      rewrite (filter_cons_False (fun p => orderId (m !!! p) <> id)) by tauto.
      rewrite (filter_cons_True (fun p => orderId (m !!! p) = id)) by done.
      rewrite last_cons.
      destruct (filter (fun p => orderId (m !!! p) = id) q) as [|r rs] eqn:F.
      * simpl. repeat f_equal; lia.
      * f_equal; [f_equal; [f_equal|]|].
        -- by destruct (last (r :: rs)).
        -- replace (int_wrap (tq - remainingQuantity (m !!! p)) -
                    foldr Z.add 0
                      (map (fun p => remainingQuantity (m !!! p)) (r :: rs)))
             with (int_wrap (tq - remainingQuantity (m !!! p)) +
                   - foldr Z.add 0
                       (map (fun p => remainingQuantity (m !!! p)) (r :: rs)))
             by lia.
           rewrite int_wrap_add_l. f_equal. simpl. lia.
        -- replace (int_wrap (oc - 1) - Z.of_nat (length (r :: rs)))
             with (int_wrap (oc - 1) + - Z.of_nat (length (r :: rs))) by lia.
           rewrite int_wrap_add_l. f_equal. simpl length. lia.
    + rewrite IH.
      rewrite (filter_cons_True (fun p => orderId (m !!! p) <> id)) by done.
      rewrite (filter_cons_False (fun p => orderId (m !!! p) = id)) by done.
      by rewrite <- app_assoc.
Qed.

Lemma filter_none_id {A} (P : A -> Prop) `{forall x, Decision (P x)}
    `{forall x, Decision (~ P x)} (l : list A) :
  (forall x, x ∈ l -> ~ P x) ->
  filter P l = [] /\ filter (fun x => ~ P x) l = l.
Proof.
  induction l as [|x l IH]; intros Hl; [done|].
  assert (Hx : ~ P x) by (apply Hl; left).
  destruct IH as [IH1 IH2]; [intros y Hy; apply Hl; by right|].
  rewrite filter_cons_False by done.
  rewrite (filter_cons_True (fun x => ~ P x)) by done.
  by rewrite IH1, IH2.
Qed.

Lemma sum_remaining_app (m : gmap ptr Order) (l k : list ptr) :
  foldr Z.add 0 (map (fun p => remainingQuantity (m !!! p)) (l ++ k)) =
  foldr Z.add 0 (map (fun p => remainingQuantity (m !!! p)) l) +
  foldr Z.add 0 (map (fun p => remainingQuantity (m !!! p)) k).
Proof. induction l as [|x l IH]; simpl; lia. Qed.

Lemma sum_remaining_filter (m : gmap ptr Order) id (l : list ptr) :
  foldr Z.add 0 (map (fun p => remainingQuantity (m !!! p)) l) =
  foldr Z.add 0 (map (fun p => remainingQuantity (m !!! p))
                     (filter (fun p => orderId (m !!! p) = id) l)) +
  foldr Z.add 0 (map (fun p => remainingQuantity (m !!! p))
                     (filter (fun p => orderId (m !!! p) <> id) l)).
Proof.
  induction l as [|x l IH]; [done|].
  destruct (decide (orderId (m !!! x) = id)) as [E|E].
  - rewrite filter_cons_True by done.
    rewrite (filter_cons_False (fun p => orderId (m !!! p) <> id)) by tauto.
    simpl. lia.
  - rewrite filter_cons_False by done.
    rewrite (filter_cons_True (fun p => orderId (m !!! p) <> id)) by done.
    simpl. lia.
Qed.

Lemma length_filter_split (m : gmap ptr Order) id (l : list ptr) :
  length l =
  (length (filter (fun p => orderId (m !!! p) = id) l) +
   length (filter (fun p => orderId (m !!! p) <> id) l))%nat.
Proof.
  induction l as [|x l IH]; [done|].
  destruct (decide (orderId (m !!! x) = id)) as [E|E].
  - rewrite filter_cons_True by done.
    rewrite (filter_cons_False (fun p => orderId (m !!! p) <> id)) by tauto.
    simpl. lia.
  - rewrite filter_cons_False by done.
    rewrite (filter_cons_True (fun p => orderId (m !!! p) <> id)) by done.
    simpl. lia.
Qed.

(** X6.  [removeOrder] takes out of the level every order with the given
    id, not only the first, and keeps the other orders in their order; it
    returns the last order removed, or [nullptr] when the level holds no
    order with the id, in which case the level is left exactly as it
    was. *)
Theorem PriceLevel_removeOrder_spec (m : gmap ptr Order) (id : string)
    (l : PriceLevel) :
  orders (PriceLevel_removeOrder m id l).2 =
    filter (fun p => orderId (m !!! p) <> id) (orders l) /\
  (PriceLevel_removeOrder m id l).1 =
    last (filter (fun p => orderId (m !!! p) = id) (orders l)) /\
  levelPrice (PriceLevel_removeOrder m id l).2 = levelPrice l /\
  ((forall p, p ∈ orders l -> orderId (m !!! p) <> id) ->
   PriceLevel_removeOrder m id l = (None, l)).
Proof.
  unfold PriceLevel_removeOrder. rewrite removeOrder_loop_spec. simpl.
  split; [done|]. split; [by destruct (last _)|]. split; [done|].
  intros Hno.
  destruct (filter_none_id (fun p => orderId (m !!! p) = id) (orders l) Hno)
    as [-> ->].
  simpl. by destruct l.
Qed.

Lemma sum_remaining_nonneg (m : gmap ptr Order) (l : list ptr) :
  (forall p, p ∈ l -> 0 <= remainingQuantity (m !!! p)) ->
  0 <= foldr Z.add 0 (map (fun p => remainingQuantity (m !!! p)) l).
Proof.
  induction l as [|x l IH]; intros H; simpl; [lia|].
  assert (0 <= remainingQuantity (m !!! x)) by (apply H; left).
  assert (0 <= foldr Z.add 0 (map (fun p => remainingQuantity (m !!! p)) l))
    by (apply IH; intros p Hp; apply H; by right).
  lia.
Qed.

(** X7.  The aggregates follow the queue as long as they fit in an [int].
    Call a level consistent when [orderCount] is the number of queued
    orders and [totalQuantity] the sum of their remaining quantities.  A
    new level is consistent.  On a consistent level [addOrder] leaves a
    consistent level when the new total and the new count are [int]
    values, and [removeOrder] does when no queued order has a negative
    remaining quantity and the total and the count are [int] values; the
    orders themselves are not modified in between.  Beyond the range of
    [int] the total wraps around ([PriceLevel_total_wraps]). *)
Theorem PriceLevel_consistent (m : gmap ptr Order) (l : PriceLevel) :
  level_consistent m l ->
  (forall price, level_consistent m (PriceLevel_new price)) /\
  (forall order,
     in_int (totalQuantity l + remainingQuantity (m !!! order)) ->
     in_int (orderCount l + 1) ->
     level_consistent m (PriceLevel_addOrder m order l)) /\
  (forall id,
     (forall p, p ∈ orders l -> 0 <= remainingQuantity (m !!! p)) ->
     in_int (totalQuantity l) -> in_int (orderCount l) ->
     level_consistent m (PriceLevel_removeOrder m id l).2).
Proof.
  intros [Hc Hq]. split; [done|]. split.
  - intros order Ht Ho. unfold level_consistent, PriceLevel_addOrder. simpl.
    rewrite !int_wrap_id by done.
    rewrite length_app, sum_remaining_app. simpl. lia.
  - intros id Hpos Ht Ho. unfold level_consistent, PriceLevel_removeOrder.
    rewrite removeOrder_loop_spec.
    cbn [fst snd orders totalQuantity orderCount app].
    pose proof (sum_remaining_filter m id (orders l)) as Hsum.
    pose proof (length_filter_split m id (orders l)) as Hlen.
    assert (H1 : 0 <= foldr Z.add 0
                   (map (fun p => remainingQuantity (m !!! p))
                        (filter (fun p => orderId (m !!! p) = id) (orders l)))).
    { apply sum_remaining_nonneg. intros p Hp.
      apply list_elem_of_filter in Hp as [_ Hp]. by apply Hpos. }
    assert (H2 : 0 <= foldr Z.add 0
                   (map (fun p => remainingQuantity (m !!! p))
                        (filter (fun p => orderId (m !!! p) <> id) (orders l)))).
    { apply sum_remaining_nonneg. intros p Hp.
      apply list_elem_of_filter in Hp as [_ Hp]. by apply Hpos. }
    unfold in_int, INT_MIN, INT_MAX in Ht, Ho.
    destruct (filter (fun p => orderId (m !!! p) = id) (orders l))
      as [|r rs] eqn:F.
    + cbn [map foldr length] in Hsum, Hlen. split; lia.
    + rewrite !int_wrap_id; [split; lia|..];
        unfold in_int, INT_MIN, INT_MAX; lia.
Qed.

Lemma PriceLevel_consistent_witness :
  level_consistent (mem two_sells)
    (PriceLevel_addOrder (mem two_sells) 0%nat (PriceLevel_new 100)) /\
  level_consistent (mem two_sells)
    (PriceLevel_addOrder (mem two_sells) 1%nat
       (PriceLevel_addOrder (mem two_sells) 0%nat (PriceLevel_new 100))) /\
  level_consistent (mem two_sells)
    (PriceLevel_removeOrder (mem two_sells) "S1"
       (PriceLevel_addOrder (mem two_sells) 0%nat (PriceLevel_new 100))).2.
Proof.
  assert (H0 : level_consistent (mem two_sells) (PriceLevel_new 100))
    by (split; reflexivity).
  assert (R1 : in_int (totalQuantity (PriceLevel_new 100) +
                       remainingQuantity (mem two_sells !!! 0%nat)))
    by (vm_compute; split; discriminate).
  assert (C1 : in_int (orderCount (PriceLevel_new 100) + 1))
    by (vm_compute; split; discriminate).
  pose proof (proj1 (proj2 (PriceLevel_consistent (mem two_sells) _ H0))
                0%nat R1 C1) as H1.
  assert (R2 : in_int (totalQuantity
                         (PriceLevel_addOrder (mem two_sells) 0%nat
                            (PriceLevel_new 100)) +
                       remainingQuantity (mem two_sells !!! 1%nat)))
    by (vm_compute; split; discriminate).
  assert (C2 : in_int (orderCount
                         (PriceLevel_addOrder (mem two_sells) 0%nat
                            (PriceLevel_new 100)) + 1))
    by (vm_compute; split; discriminate).
  assert (P : forall p,
             p ∈ orders (PriceLevel_addOrder (mem two_sells) 0%nat
                           (PriceLevel_new 100)) ->
             0 <= remainingQuantity (mem two_sells !!! p)).
  { intros p Hp. apply list_elem_of_singleton in Hp as ->.
    vm_compute. discriminate. }
  assert (R3 : in_int (totalQuantity
                         (PriceLevel_addOrder (mem two_sells) 0%nat
                            (PriceLevel_new 100))))
    by (vm_compute; split; discriminate).
  assert (C3 : in_int (orderCount
                         (PriceLevel_addOrder (mem two_sells) 0%nat
                            (PriceLevel_new 100))))
    by (vm_compute; split; discriminate).
  split; [exact H1|]. split.
  - exact (proj1 (proj2 (PriceLevel_consistent (mem two_sells) _ H1))
             1%nat R2 C2).
  - exact (proj2 (proj2 (PriceLevel_consistent (mem two_sells) _ H1))
             "S1" P R3 C3).
Defined.

(** Beyond [INT_MAX] the total is wrong: two orders for [INT_MAX] units
    each leave [totalQuantity] at -2. *)
Lemma PriceLevel_total_wraps :
  totalQuantity
    (PriceLevel_addOrder two_huge_orders 1%nat
       (PriceLevel_addOrder two_huge_orders 0%nat (PriceLevel_new 100))) = -2.
Proof. vm_compute. reflexivity. Qed.

Lemma getAllOrders_loop_spec q : forall result,
  getAllOrders_loop q result = result ++ q.
Proof.
  induction q as [|x q IH]; intros result; simpl.
  - by rewrite app_nil_r.
  - by rewrite IH, <- app_assoc.
Qed.

(** X8.  A level is a FIFO queue: [getAllOrders] lists the orders in the
    order of their [addOrder] calls, and [getFirstOrder] is the head of
    that list -- the earliest order still in the level -- and [nullptr]
    exactly when the level is empty. *)
Theorem PriceLevel_fifo (m : gmap ptr Order) (l : PriceLevel) (order : ptr) :
  PriceLevel_getAllOrders (PriceLevel_addOrder m order l) =
    PriceLevel_getAllOrders l ++ [order] /\
  PriceLevel_getFirstOrder l = head (PriceLevel_getAllOrders l) /\
  PriceLevel_getFirstOrder (PriceLevel_addOrder m order l) =
    Some (default order (PriceLevel_getFirstOrder l)) /\
  (PriceLevel_getFirstOrder l = None <-> PriceLevel_isEmpty l = true) /\
  PriceLevel_getAllOrders (PriceLevel_new (levelPrice l)) = [].
Proof.
  unfold PriceLevel_getAllOrders, PriceLevel_getFirstOrder,
    PriceLevel_isEmpty, PriceLevel_addOrder.
  rewrite !getAllOrders_loop_spec. simpl.
  split; [done|]. split; [done|]. split; [by destruct (orders l)|].
  split; [|done].
  case_bool_decide as E; [by rewrite E|].
  destruct (orders l); [done|]. split; discriminate.
Qed.


(** ** The AVL tree *)

Section AVLInvariants.
Context {T : Type} (comp : T -> T -> bool).
Hypothesis comp_irrefl : forall x, comp x x = false.
Hypothesis comp_trans :
  forall x y z, comp x y = true -> comp y z = true -> comp x z = true.

Lemma comp_asym x y : comp x y = true -> comp y x = false.
Proof.
  intros H. destruct (comp y x) eqn:E; [|done].
  pose proof (comp_trans _ _ _ H E) as F. by rewrite comp_irrefl in F.
Qed.

Lemma avl_height_nonneg (t : Node T) : avl t -> 0 <= getHeight t.
Proof.
  induction t as [|d l IHl r IHr h]; simpl; [lia|].
  intros (Hl & Hr & -> & _). specialize (IHl Hl). specialize (IHr Hr). lia.
Qed.

Lemma avl_height_zero (t : Node T) : avl t -> getHeight t = 0 -> t = Null.
Proof.
  destruct t as [|d l r h]; simpl; [done|].
  intros (Hl & Hr & -> & _) Hz.
  pose proof (avl_height_nonneg l Hl). pose proof (avl_height_nonneg r Hr).
  lia.
Qed.

Lemma Forall_inOrder_insert (P : T -> Prop) (t : Node T) data :
  Forall P (inOrder t) -> P data -> Forall P (inOrder (insert comp t data)).
Proof.
  intros Ht Hd. induction t as [|d l IHl r IHr h]; simpl.
  { by constructor. }
  simpl in Ht. apply Forall_app in Ht as [Hl Hr].
  apply Forall_cons in Hr as [Hd' Hr].
  destruct (comp data d); [|destruct (comp d data)];
    rewrite ?inOrder_rebalance; simpl;
    apply Forall_app; (split; [|apply Forall_cons; split]); auto.
Qed.

Lemma bst_height_irrelevant d (l r : Node T) h h' :
  bst comp (Nd d l r h) -> bst comp (Nd d l r h').
Proof. done. Qed.

Lemma bst_rotateRight (y : Node T) : bst comp y -> bst comp (rotateRight y).
Proof.
  destruct y as [|yd [|xd xl T2 xh] yr yh]; simpl; try done.
  intros ((Hxl & HT2 & Hxl' & HT2') & Hyr & Hl & Hr).
  apply Forall_app in Hl as [Hl1 Hl2]. apply Forall_cons in Hl2 as [Hxy Hl2].
  repeat split; try done.
  apply Forall_app. split; [done|]. apply Forall_cons. split; [done|].
  eapply Forall_impl; [exact Hr|]. intros z Hz. simpl in Hz.
  by eapply comp_trans.
Qed.

Lemma bst_rotateLeft (x : Node T) : bst comp x -> bst comp (rotateLeft x).
Proof.
  destruct x as [|xd xl [|yd T2 yr yh] xh]; simpl; try done.
  intros (Hxl & (HT2 & Hyr & HT2' & Hyr') & Hl & Hr).
  apply Forall_app in Hr as [Hr1 Hr2]. apply Forall_cons in Hr2 as [Hxy Hr2].
  repeat split; try done.
  apply Forall_app. split; [|apply Forall_cons; split; done].
  eapply Forall_impl; [exact Hl|]. intros z Hz. simpl in Hz.
  by eapply comp_trans.
Qed.

Lemma bst_Nd_inOrder d (l l' r r' : Node T) h h' :
  bst comp (Nd d l r h) -> bst comp l' -> bst comp r' ->
  inOrder l' = inOrder l -> inOrder r' = inOrder r ->
  bst comp (Nd d l' r' h').
Proof. simpl. intros (_ & _ & Hl & Hr) Hl' Hr' -> ->. done. Qed.

Lemma bst_rebalance d (l r : Node T) data :
  bst comp (Nd d l r 0) -> bst comp (rebalance comp d l r data).
Proof.
  intros H. unfold rebalance.
  repeat match goal with
         | |- context [if ?c then _ else _] => destruct c
         end.
  - by apply bst_rotateRight.
  - by apply bst_rotateLeft.
  - apply bst_rotateRight.
    eapply bst_Nd_inOrder; [exact H| | |apply inOrder_rotateLeft|done].
    + apply bst_rotateLeft. apply H.
    + apply H.
  - apply bst_rotateLeft.
    eapply bst_Nd_inOrder; [exact H| | |done|apply inOrder_rotateRight].
    + apply H.
    + apply bst_rotateRight. apply H.
  - done.
Qed.

Lemma bst_insert (t : Node T) data : bst comp t -> bst comp (insert comp t data).
Proof.
  induction t as [|d l IHl r IHr h]; simpl; [by repeat constructor|].
  intros (Hl & Hr & Hl' & Hr').
  destruct (comp data d) eqn:E1; [|destruct (comp d data) eqn:E2].
  - apply bst_rebalance. simpl. repeat split; auto.
    by apply Forall_inOrder_insert.
  - apply bst_rebalance. simpl. repeat split; auto.
    by apply Forall_inOrder_insert.
  - done.
Qed.

(** The balance part.  When the height grows the taller side is the one
    [data] went to, which is what the rotation cases test. *)
Lemma avl_insert (t : Node T) data :
  avl t ->
  avl (insert comp t data) /\
  (getHeight (insert comp t data) = getHeight t \/
   (getHeight (insert comp t data) = getHeight t + 1 /\
    grew comp data (insert comp t data))).
Proof.
  induction t as [|d l IHl r IHr h]; simpl.
  { intros _. split; [repeat split; lia|]. right. split; [done|]. by left. }
  intros (Hl & Hr & -> & Hbal).
  pose proof (avl_height_nonneg l Hl) as Hl0.
  pose proof (avl_height_nonneg r Hr) as Hr0.
  destruct (comp data d) eqn:E1; [|destruct (comp d data) eqn:E2].
  - (* into the left subtree *)
    destruct (IHl Hl) as (Hl' & Hh). clear IHl IHr.
    set (l' := insert comp l data) in *.
    unfold rebalance. simpl.
    destruct Hh as [Hh|[Hh Hg]].
    { destruct (Z.ltb_spec 1 (getHeight l' - getHeight r)); [lia|].
      destruct (Z.ltb_spec (getHeight l' - getHeight r) (-1)); [lia|].
      simpl. split; [repeat split; try done; lia|]. left. lia. }
    destruct (Z.ltb_spec 1 (getHeight l' - getHeight r)) as [Hb|Hb]; simpl.
    2:{ destruct (Z.ltb_spec (getHeight l' - getHeight r) (-1)); [lia|].
        simpl. split; [repeat split; try done; lia|].
        destruct (Z.le_gt_cases (getHeight l') (getHeight r)).
        - left. lia.
        - right. split; [lia|]. right. left. split; [done|]. lia. }
    destruct l' as [|ld ll lr hl']; [simpl in *; lia|].
    simpl in Hl', Hg, Hh, Hb |- *.
    destruct Hl' as (Hll & Hlr & -> & Hbl).
    pose proof (avl_height_nonneg ll Hll).
    pose proof (avl_height_nonneg lr Hlr).
    destruct Hg as [[-> ->]|[[Hc Hg]|[Hc Hg]]]; [simpl in *; lia| |].
    + (* left left *)
      rewrite Hc. simpl. split; [repeat split; try done; lia|]. left. lia.
    + (* left right *)
      rewrite (comp_asym _ _ Hc).
      destruct (Z.ltb_spec (1 + Z.max (getHeight ll) (getHeight lr)
                            - getHeight r) (-1)); [lia|].
      rewrite Hc. simpl.
      destruct lr as [|lrd lrl lrr hlr]; [simpl in *; lia|].
      simpl in Hlr, Hg, Hbl, Hh, Hb |- *.
      destruct Hlr as (Hlrl & Hlrr & -> & Hblr).
      pose proof (avl_height_nonneg lrl Hlrl).
      pose proof (avl_height_nonneg lrr Hlrr).
      split; [repeat split; try done; lia|]. left. lia.
  - (* into the right subtree *)
    destruct (IHr Hr) as (Hr' & Hh). clear IHl IHr.
    set (r' := insert comp r data) in *.
    unfold rebalance. simpl.
    destruct Hh as [Hh|[Hh Hg]].
    { destruct (Z.ltb_spec 1 (getHeight l - getHeight r')); [lia|].
      destruct (Z.ltb_spec (getHeight l - getHeight r') (-1)); [lia|].
      simpl. split; [repeat split; try done; lia|]. left. lia. }
    destruct (Z.ltb_spec 1 (getHeight l - getHeight r')) as [Hb1|Hb1];
      [lia|]. simpl.
    destruct (Z.ltb_spec (getHeight l - getHeight r') (-1)) as [Hb|Hb]; simpl.
    2:{ split; [repeat split; try done; lia|].
        destruct (Z.le_gt_cases (getHeight r') (getHeight l)).
        - left. lia.
        - right. split; [lia|]. right. right. split; [done|]. lia. }
    destruct r' as [|rd rl rr hr']; [simpl in *; lia|].
    simpl in Hr', Hg, Hh, Hb |- *.
    destruct Hr' as (Hrl & Hrr & -> & Hbr).
    pose proof (avl_height_nonneg rl Hrl).
    pose proof (avl_height_nonneg rr Hrr).
    destruct Hg as [[-> ->]|[[Hc Hg]|[Hc Hg]]]; [simpl in *; lia| |].
    + (* right left *)
      rewrite (comp_asym _ _ Hc). simpl. rewrite Hc.
      destruct rl as [|rld rll rlr hrl]; [simpl in *; lia|].
      simpl in Hrl, Hg, Hbr, Hh, Hb |- *.
      destruct Hrl as (Hrll & Hrlr & -> & Hbrl).
      pose proof (avl_height_nonneg rll Hrll).
      pose proof (avl_height_nonneg rlr Hrlr).
      split; [repeat split; try done; lia|]. left. lia.
    + (* right right *)
      rewrite Hc. simpl. split; [repeat split; try done; lia|]. left. lia.
  - intros. split; [repeat split; try done; lia|]. by left.
Qed.

Lemma AVLTree_insert_balanced (t : Node T) data :
  avl t -> bst comp t ->
  avl (insert comp t data) /\ bst comp (insert comp t data).
Proof.
  intros Ha Hb. split; [apply avl_insert, Ha | by apply bst_insert].
Qed.
End AVLInvariants.


Lemma Zltb_trans x y z : (x <? y) = true -> (y <? z) = true -> (x <? z) = true.
Proof. rewrite !Z.ltb_lt. lia. Qed.

(** X9.  Insertion keeps the tree a balanced search tree.  For a
    comparator that is irreflexive and transitive, [insert] on a tree
    whose nodes store their heights, whose sibling subtrees differ in
    height by at most one and whose in-order traversal is sorted returns
    such a tree again, and the height grows by at most one. *)
Theorem AVLTree_insert_invariants {T : Type} (comp : T -> T -> bool)
    (t : Node T) (data : T) :
  (forall x, comp x x = false) ->
  (forall x y z, comp x y = true -> comp y z = true -> comp x z = true) ->
  avl t -> bst comp t ->
  avl (insert comp t data) /\ bst comp (insert comp t data) /\
  getHeight t <= getHeight (insert comp t data) <= getHeight t + 1.
Proof.
  intros Hi Ht Havl Hbst.
  destruct (avl_insert comp Hi Ht t data Havl) as (H1 & H2).
  split; [done|]. split; [by apply bst_insert|].
  destruct H2 as [->|[-> _]]; lia.
Qed.

Lemma AVLTree_insert_invariants_witness :
  avl tree_1_2 /\ bst Z.ltb tree_1_2 /\
  avl tree_1_2_3 /\ bst Z.ltb tree_1_2_3 /\
  getHeight tree_1_2 <= getHeight tree_1_2_3 <= getHeight tree_1_2 + 1.
Proof.
  assert (H1 : avl tree_1_2) by (vm_compute; repeat split; discriminate).
  assert (H2 : bst Z.ltb tree_1_2)
    by (vm_compute; repeat split; repeat constructor).
  split; [exact H1|]. split; [exact H2|].
  exact (AVLTree_insert_invariants Z.ltb tree_1_2 3 Z.ltb_irrefl Zltb_trans
           H1 H2).
Defined.

(** X10.  A key that is already in the tree is not inserted again: when
    the tree holds an element that [comp] puts neither before nor after
    [data], [insert] returns the tree unchanged. *)
Theorem AVLTree_insert_same_key {T : Type} (comp : T -> T -> bool)
    (t : Node T) (data : T) :
  (forall x y z, comp x y = true -> comp y z = true -> comp x z = true) ->
  avl t -> bst comp t ->
  (exists x, x ∈ inOrder t /\ same_key comp x data) ->
  insert comp t data = t.
Proof.
  intros Ht. induction t as [|d l IHl r IHr h]; simpl.
  { intros _ _ (x & Hx & _). by apply elem_of_nil in Hx. }
  intros (Hl & Hr & -> & Hbal) (Hbl & Hbr & Hfl & Hfr) (x & Hx & Hx1 & Hx2).
  rewrite Forall_forall in Hfl, Hfr.
  destruct (comp data d) eqn:E1; [|destruct (comp d data) eqn:E2; [|done]].
  - rewrite IHl; try done.
    + unfold rebalance. simpl.
      destruct (Z.ltb_spec 1 (getHeight l - getHeight r)); [lia|].
      destruct (Z.ltb_spec (getHeight l - getHeight r) (-1)); [lia|]. done.
    + exists x. split; [|done].
      apply elem_of_app in Hx as [Hx|Hx]; [done|].
      apply elem_of_cons in Hx as [->|Hx]; [congruence|].
      rewrite (Ht _ _ _ E1 (Hfr _ Hx)) in Hx2. done.
  - rewrite IHr; try done.
    + unfold rebalance. simpl.
      destruct (Z.ltb_spec 1 (getHeight l - getHeight r)); [lia|].
      destruct (Z.ltb_spec (getHeight l - getHeight r) (-1)); [lia|]. done.
    + exists x. split; [|done].
      apply elem_of_app in Hx as [Hx|Hx].
      * rewrite (Ht _ _ _ (Hfl _ Hx) E2) in Hx1. done.
      * apply elem_of_cons in Hx as [->|Hx]; [congruence | done].
Qed.

Lemma AVLTree_insert_same_key_witness :
  avl tree_1_2_3 /\ bst Z.ltb tree_1_2_3 /\
  (exists x, x ∈ inOrder tree_1_2_3 /\ same_key Z.ltb x 2) /\
  insert Z.ltb tree_1_2_3 2 = tree_1_2_3.
Proof.
  assert (H1 : avl tree_1_2_3) by (vm_compute; repeat split; discriminate).
  assert (H2 : bst Z.ltb tree_1_2_3)
    by (vm_compute; repeat split; repeat constructor).
  assert (H3 : exists x, x ∈ inOrder tree_1_2_3 /\ same_key Z.ltb x 2).
  { exists 2. split; [vm_compute; right; left | split; reflexivity]. }
  split; [exact H1|]. split; [exact H2|]. split; [exact H3|].
  exact (AVLTree_insert_same_key Z.ltb tree_1_2_3 2 Zltb_trans H1 H2 H3).
Defined.

(** X11.  A new key goes to its place: when no element of a search tree
    has the key of [data], the in-order traversal after [insert] is the
    traversal before with [data] put in, after the elements below it and
    before the elements above it. *)
Theorem AVLTree_insert_new_key {T : Type} (comp : T -> T -> bool)
    (t : Node T) (data : T) :
  (forall x y z, comp x y = true -> comp y z = true -> comp x z = true) ->
  bst comp t ->
  (forall x, x ∈ inOrder t -> ~ same_key comp x data) ->
  exists l1 l2,
    inOrder t = l1 ++ l2 /\
    inOrder (insert comp t data) = l1 ++ data :: l2 /\
    Forall (fun x => comp x data = true) l1 /\
    Forall (fun x => comp data x = true) l2.
Proof.
  intros Ht. induction t as [|d l IHl r IHr h]; simpl.
  { intros _ _. by exists [], []. }
  intros (Hbl & Hbr & Hfl & Hfr) Hnew.
  destruct (comp data d) eqn:E1; [|destruct (comp d data) eqn:E2].
  - destruct IHl as (l1 & l2 & El & Ei & F1 & F2); [done| |].
    { intros x Hx. apply Hnew, elem_of_app. by left. }
    exists l1, (l2 ++ d :: inOrder r).
    rewrite inOrder_rebalance, Ei, El, <- !app_assoc. simpl.
    repeat split; try done.
    apply Forall_app. split; [done|]. apply Forall_cons. split; [done|].
    eapply Forall_impl; [exact Hfr|]. intros z Hz. simpl in Hz.
    by eapply Ht.
  - destruct IHr as (l1 & l2 & El & Ei & F1 & F2); [done| |].
    { intros x Hx. apply Hnew, elem_of_app. right. by right. }
    exists (inOrder l ++ d :: l1), l2.
    rewrite inOrder_rebalance, Ei, El, <- !app_assoc. simpl.
    repeat split; try done.
    apply Forall_app. split.
    + eapply Forall_impl; [exact Hfl|]. intros z Hz. simpl in Hz.
      by eapply Ht.
    + by apply Forall_cons.
  - exfalso. apply (Hnew d); [|done].
    apply elem_of_app. right. left.
Qed.

Lemma AVLTree_insert_new_key_witness :
  bst Z.ltb tree_1_2 /\
  exists l1 l2,
    inOrder tree_1_2 = l1 ++ l2 /\
    inOrder (insert Z.ltb tree_1_2 3) = l1 ++ 3 :: l2 /\
    Forall (fun x => (x <? 3) = true) l1 /\
    Forall (fun x => (3 <? x) = true) l2.
Proof.
  assert (H2 : bst Z.ltb tree_1_2)
    by (vm_compute; repeat split; repeat constructor).
  split; [exact H2|].
  apply (AVLTree_insert_new_key Z.ltb tree_1_2 3 Zltb_trans H2).
  intros x Hx [H _]. vm_compute in Hx.
  apply elem_of_cons in Hx as [->|Hx]; [discriminate|].
  apply elem_of_cons in Hx as [->|Hx]; [discriminate|].
  destruct (proj1 (elem_of_nil x) Hx).
Defined.


(** ** More about the book *)

Lemma bst_ext {T : Type} (comp comp' : T -> T -> bool) (t : Node T) :
  (forall x y, comp' x y = comp x y) -> bst comp t -> bst comp' t.
Proof.
  intros He. induction t as [|d l IHl r IHr h]; simpl; [done|].
  intros (Hl & Hr & Hfl & Hfr). repeat split; auto.
  - eapply Forall_impl; [exact Hfl|]. intros x Hx. simpl. by rewrite He.
  - eapply Forall_impl; [exact Hfr|]. intros x Hx. simpl. by rewrite He.
Qed.

Lemma StopLossBuyComparator_irrefl m x : StopLossBuyComparator m x x = false.
Proof. apply Z.ltb_irrefl. Qed.

Lemma StopLossSellComparator_irrefl m x : StopLossSellComparator m x x = false.
Proof. apply Z.ltb_irrefl. Qed.

Lemma StopLossBuyComparator_trans m x y z :
  StopLossBuyComparator m x y = true -> StopLossBuyComparator m y z = true ->
  StopLossBuyComparator m x z = true.
Proof. unfold StopLossBuyComparator. rewrite !Z.ltb_lt. lia. Qed.

Lemma StopLossSellComparator_trans m x y z :
  StopLossSellComparator m x y = true -> StopLossSellComparator m y z = true ->
  StopLossSellComparator m x z = true.
Proof. unfold StopLossSellComparator. rewrite !Z.ltb_lt. lia. Qed.

(** No operation of the book changes what an order keeps for life. *)
Lemma addOrder_identity t b trades b' x :
  addOrder (Some t) b = Ok (trades, b') ->
  same_identity (deref b x) (deref b' x).
Proof.
  intros Hadd. destruct (isStopLoss (deref b t)) eqn:Hstop.
  - unfold addOrder in Hadd. destruct (negb _); [discriminate|].
    rewrite Hstop in Hadd. injection Hadd as _ <-.
    unfold deref. destruct (isBuy _); rewrite addToOrderBook_mem;
      apply same_identity_refl.
  - destruct (addOrder_match _ _ _ _ Hadd Hstop) as (run & b1 & Hrun & _ & ->).
    pose proof (iterates_identity _ _ _ _ _ x Hrun) as Hid.
    destruct (0 <? _); [|done].
    unfold deref at 2. by rewrite addToOrderBook_mem.
Qed.

Lemma stop_trees_ok_ext b b' :
  buyStopLossOrders b' = buyStopLossOrders b ->
  sellStopLossOrders b' = sellStopLossOrders b ->
  (forall x, same_identity (deref b x) (deref b' x)) ->
  stop_trees_ok b -> stop_trees_ok b'.
Proof.
  intros Hb Hs Hid (H1 & H2 & H3 & H4). unfold stop_trees_ok.
  rewrite Hb, Hs. repeat split; try done.
  - eapply bst_ext; [|exact H2]. intros x y. unfold StopLossBuyComparator.
    destruct (Hid x) as (_&_&_&_&_&_&_&_&Hx).
    destruct (Hid y) as (_&_&_&_&_&_&_&_&Hy).
    unfold deref in Hx, Hy. by rewrite Hx, Hy.
  - eapply bst_ext; [|exact H4]. intros x y. unfold StopLossSellComparator.
    destruct (Hid x) as (_&_&_&_&_&_&_&_&Hx).
    destruct (Hid y) as (_&_&_&_&_&_&_&_&Hy).
    unfold deref in Hx, Hy. by rewrite Hx, Hy.
Qed.

(** X12.  The stop trees of a book stay balanced search trees by trigger
    price: they are in a new book, and [addOrder] and [cancelOrder] keep
    them so. *)
Theorem stop_trees_stay_ok (b : OrderBook) :
  stop_trees_ok b ->
  (forall symbol, stop_trees_ok (OrderBook_new symbol)) /\
  (forall t trades b',
     addOrder (Some t) b = Ok (trades, b') -> stop_trees_ok b') /\
  (forall id, stop_trees_ok (cancelOrder id b).2).
Proof.
  intros Hok. split; [done|]. split.
  - intros t trades b' Hadd.
    destruct (isStopLoss (deref b t)) eqn:Hstop.
    + unfold addOrder in Hadd. destruct (negb _); [discriminate|].
      rewrite Hstop in Hadd. injection Hadd as _ <-.
      destruct Hok as (H1 & H2 & H3 & H4).
      destruct (isBuy (deref b t));
        match goal with
        | |- stop_trees_ok (addToOrderBook t ?b1) =>
            apply (stop_trees_ok_ext b1);
              [apply addToOrderBook_frame | apply addToOrderBook_frame
              | intros x; unfold deref; rewrite addToOrderBook_mem;
                apply same_identity_refl |]
        end; unfold stop_trees_ok; simpl.
      * destruct (AVLTree_insert_balanced (StopLossBuyComparator (mem b))
                    (StopLossBuyComparator_irrefl (mem b))
                    (StopLossBuyComparator_trans (mem b))
                    (buyStopLossOrders b) t H1 H2) as [Ha Hb].
        done.
      * destruct (AVLTree_insert_balanced (StopLossSellComparator (mem b))
                    (StopLossSellComparator_irrefl (mem b))
                    (StopLossSellComparator_trans (mem b))
                    (sellStopLossOrders b) t H3 H4) as [Ha Hb].
        done.
    + destruct (addOrder_match _ _ _ _ Hadd Hstop) as (run & b1 & Hrun & _ & E).
      destruct (iterates_stops _ _ _ _ _ Hrun) as (Hb & Hs & _).
      apply (stop_trees_ok_ext b);
        [| |intros x; eapply addOrder_identity; exact Hadd|done].
      * subst b'. destruct (0 <? _); [|done].
        by destruct (addToOrderBook_frame t b1) as (-> & _).
      * subst b'. destruct (0 <? _); [|done].
        by destruct (addToOrderBook_frame t b1) as (_ & -> & _).
  - intros id. unfold cancelOrder.
    destruct (orderMap b !! id) as [p|] eqn:Hp; [|done]. simpl.
    set (b1 := set_mem _ b).
    destruct (removeFromOrderBook_frame id b1) as (Hm & _ & _ & _ & Hb & Hs & _).
    apply (stop_trees_ok_ext b); [by rewrite Hb | by rewrite Hs | | done].
    intros x. unfold deref at 2. rewrite Hm. simpl.
    destruct (decide (x = p)) as [->|Hx].
    + rewrite lookup_total_insert_eq. unfold same_identity, deref; simpl.
      tauto.
    + rewrite lookup_total_insert_ne by done. apply same_identity_refl.
Qed.

Lemma stop_trees_stay_ok_witness :
  stop_trees_ok stop_sell_rests /\
  stop_trees_ok (cancelOrder "ST" stop_sell_rests).2.
Proof.
  assert (H : stop_trees_ok stop_sell_rests)
    by (vm_compute; repeat split; try discriminate; repeat constructor).
  split; [exact H|].
  exact (proj2 (proj2 (stop_trees_stay_ok stop_sell_rests H)) "ST").
Defined.

(** X13.  [addOrder] throws in two cases only: the order is null, or its
    symbol is not the symbol of the book.  In every other case it returns;
    the matching loop never throws (no fill is ever invalid) and always
    terminates. *)
Theorem addOrder_throws_iff (order : option ptr) (b : OrderBook) :
  match addOrder order b with
  | Ok _ => exists p, order = Some p /\ symbol (deref b p) = bookSymbol b
  | Throw _ =>
      order = None \/
      exists p, order = Some p /\ symbol (deref b p) <> bookSymbol b
  | OutOfFuel => False
  end.
Proof.
  destruct order as [p|]; [|simpl; by left].
  destruct (decide (symbol (deref b p) = bookSymbol b)) as [E|E].
  - destruct (addOrder_total p b E) as (trades & b' & ->). eauto.
  - unfold addOrder. rewrite bool_decide_eq_false_2 by done. simpl. eauto.
Qed.

(** X14.  [getBestBid] is the highest price in the buy queue and
    [getBestAsk] the lowest price in the sell queue, attained by a queued
    order; on an empty queue they return 0. *)
Theorem best_prices_extremal (b : OrderBook) :
  (forall p, p ∈ buyOrders b -> price (deref b p) <= getBestBid b) /\
  (forall p, p ∈ sellOrders b -> getBestAsk b <= price (deref b p)) /\
  (buyOrders b = [] -> getBestBid b = 0) /\
  (sellOrders b = [] -> getBestAsk b = 0) /\
  (buyOrders b <> [] ->
   exists p, p ∈ buyOrders b /\ price (deref b p) = getBestBid b) /\
  (sellOrders b <> [] ->
   exists p, p ∈ sellOrders b /\ price (deref b p) = getBestAsk b).
Proof.
  unfold getBestBid, getBestAsk.
  destruct (pq_top (BuyOrderComparator (mem b)) (buyOrders b)) as [tb|] eqn:Eb;
  destruct (pq_top (SellOrderComparator (mem b)) (sellOrders b)) as [ta|] eqn:Ea.
  all: repeat split.
  all: try (intros p Hp).
  all: try match goal with
       | H : pq_top _ ?q = None, Hp : _ ∈ ?q |- _ =>
           apply pq_top_None in H; rewrite H in Hp; by apply elem_of_nil in Hp
       | H : pq_top _ ?q = Some _ |- ?q = [] -> _ =>
           intros Hq; rewrite Hq in H; discriminate
       | H : pq_top _ ?q = None |- ?q <> [] -> _ =>
           intros Hq; apply pq_top_None in H; done
       | |- _ = [] -> 0 = 0 => done
       end.
  all: try match goal with
       | H : pq_top _ ?q = Some ?t |- ?q <> [] -> _ =>
           intros _; exists t; split; [eapply pq_top_elem, H | done]
       end.
  all: try match goal with
       | H : pq_top (BuyOrderComparator _) ?q = Some ?t, Hp : ?p ∈ ?q |- _ =>
           pose proof (pq_top_max _ (BuyOrderComparator_irrefl (mem b))
                         (BuyOrderComparator_trans (mem b)) _ _ p H Hp) as Hm;
           unfold BuyOrderComparator, deref in *; revert Hm; Zbool; simpl;
           intros; try done; lia
       | H : pq_top (SellOrderComparator _) ?q = Some ?t, Hp : ?p ∈ ?q |- _ =>
           pose proof (pq_top_max _ (SellOrderComparator_irrefl (mem b))
                         (SellOrderComparator_trans (mem b)) _ _ p H Hp) as Hm;
           unfold SellOrderComparator, deref in *; revert Hm; Zbool; simpl;
           intros; try done; lia
       end.
Qed.


Lemma isCompatibleWith_true_more o other :
  isCompatibleWith o other = true ->
  symbol o = symbol other /\
  status o <> FILLED /\ status o <> CANCELLED /\
  status other <> FILLED /\ status other <> CANCELLED /\
  (type o <> MARKET -> type other <> MARKET ->
   if isBuy o then price other <= price o else price o <= price other).
Proof.
  unfold isCompatibleWith.
  case_bool_decide as Hsym; simpl; [|discriminate].
  case_bool_decide as Hside; [discriminate|].
  destruct (_ || _); [discriminate|].
  case_bool_decide as H1; simpl; [discriminate|].
  case_bool_decide as H2; simpl; [discriminate|].
  case_bool_decide as H3; simpl; [discriminate|].
  case_bool_decide as H4; simpl; [discriminate|].
  intros Hc. repeat (split; [done|]). intros Ho Hother.
  unfold isBuy, isSell, isMarket in *.
  rewrite (bool_decide_eq_false_2 (type o = MARKET)),
    (bool_decide_eq_false_2 (type other = MARKET)) in Hc by done.
  simpl in Hc.
  destruct (side o), (side other); simpl in Hc; try done;
    rewrite ?bool_decide_eq_true_2, ?bool_decide_eq_false_2 in * by done;
    simpl in *; by apply Z.leb_le.
Qed.

Lemma iterates_end s t b run b' :
  iterates s t b run b' -> matchIteration s t b' = None.
Proof. induction 1; done. Qed.

Lemma iterates_terminal s t b run b' x :
  iterates s t b run b' ->
  status (deref b x) = FILLED \/ status (deref b x) = CANCELLED ->
  deref b' x = deref b x.
Proof.
  induction 1 as [b _|b m trade b1 run b' Htop E _ IH]; intros Hst; [done|].
  pose proof (iterates_pass_facts _ _ _ _ _ _ Htop E) as F.
  destruct (isCompatibleWith_true_more _ _ (pf_compatible _ _ _ _ _ _ F))
    as (_ & H1 & H2 & H3 & H4 & _).
  assert (E1 : deref b1 x = deref b x).
  { destruct (pass_cases _ _ _ _ _ _ x F) as [->|[[->| ->] _]]; [done|..];
      destruct Hst; congruence. }
  rewrite <- E1. apply IH. by rewrite E1.
Qed.

(** X15.  [addOrder] never touches an order that is FILLED or CANCELLED:
    whether such an order is still in a queue or is the order handed in,
    it is left exactly as it was; in particular it loses no quantity. *)
Theorem terminal_orders_untouched (b : OrderBook) (t : ptr) trades b' x :
  addOrder (Some t) b = Ok (trades, b') ->
  status (deref b x) = FILLED \/ status (deref b x) = CANCELLED ->
  deref b' x = deref b x.
Proof.
  intros Hadd Hst. destruct (isStopLoss (deref b t)) eqn:Hstop.
  - unfold addOrder in Hadd. destruct (negb _); [discriminate|].
    rewrite Hstop in Hadd. injection Hadd as _ <-.
    unfold deref. by destruct (isBuy _); rewrite addToOrderBook_mem.
  - destruct (addOrder_match _ _ _ _ Hadd Hstop) as (run & b1 & Hrun & _ & ->).
    rewrite <- (iterates_terminal _ _ _ _ _ x Hrun Hst).
    destruct (0 <? _); [|done]. unfold deref. by rewrite addToOrderBook_mem.
Qed.

Lemma terminal_orders_untouched_witness :
  let b := cancelled_sell_and_buyer.2 in
  exists b',
    addOrder (Some 1%nat) b = Ok ([], b') /\
    (status (deref b 0%nat) = FILLED \/ status (deref b 0%nat) = CANCELLED) /\
    deref b' 0%nat = deref b 0%nat.
Proof.
  intros b.
  assert (E : exists b', addOrder (Some 1%nat) b = Ok ([], b'))
    by (eexists; vm_compute; reflexivity).
  destruct E as [b' E].
  assert (Hst : status (deref b 0%nat) = CANCELLED) by (vm_compute; reflexivity).
  clearbody b.
  exists b'. split; [exact E|]. split; [right; exact Hst|].
  exact (terminal_orders_untouched b 1%nat [] b' 0%nat E (or_intror Hst)).
Defined.

Lemma iterates_limit_price s t b run b' m T :
  iterates s t b run b' -> s = sideOf (deref b t) ->
  type (deref b t) = LIMIT -> (m, T) ∈ run ->
  if isBuy (deref b t) then trade_price T <= price (deref b t)
  else price (deref b t) <= trade_price T.
Proof.
  induction 1 as [b _|b m0 trade b1 run b' Htop E _ IH]; intros Hs Hty Hin.
  { by apply elem_of_nil in Hin. }
  pose proof (iterates_pass_facts _ _ _ _ _ _ Htop E) as F.
  apply elem_of_cons in Hin as [[= -> ->]|Hin].
  - destruct (isCompatibleWith_true_more _ _ (pf_compatible _ _ _ _ _ _ F))
      as (_ & _ & _ & _ & _ & Hp).
    rewrite (pf_price _ _ _ _ _ _ F). unfold isMarket.
    rewrite (bool_decide_eq_false_2 (type (deref b t) = MARKET)) by congruence.
    case_bool_decide as Hm; simpl.
    + clear Hp. destruct (isBuy (deref b t)); apply Z.le_refl.
    + apply Hp; [congruence | done].
  - destruct (pass_identity _ _ _ _ _ _ t F) as (_&_&_&Hty'&Hsd&Hpr&_).
    assert (Hb : isBuy (deref b1 t) = isBuy (deref b t))
      by (unfold isBuy; by rewrite Hsd).
    rewrite <- Hb, <- Hpr. apply IH; [|congruence|done].
    rewrite Hs. unfold sideOf. by rewrite Hb.
Qed.

(** X16.  A LIMIT order never trades through its limit: every trade
    [addOrder] returns for an incoming LIMIT BUY is at a price not above
    the order's price, and for an incoming LIMIT SELL at a price not below
    it. *)
Theorem limit_price_respected (b : OrderBook) (t : ptr) trades b' :
  addOrder (Some t) b = Ok (trades, b') ->
  type (deref b t) = LIMIT ->
  Forall (fun T =>
            (side (deref b t) = BUY -> trade_price T <= price (deref b t)) /\
            (side (deref b t) = SELL -> price (deref b t) <= trade_price T))
         trades.
Proof.
  intros Hadd Hty.
  assert (Hstop : isStopLoss (deref b t) = false).
  { unfold isStopLoss. rewrite Hty. by apply bool_decide_eq_false_2. }
  destruct (addOrder_match _ _ _ _ Hadd Hstop) as (run & b1 & Hrun & -> & _).
  apply Forall_forall. intros T HT.
  apply list_elem_of_fmap in HT as ([m T'] & -> & Hin). simpl.
  pose proof (iterates_limit_price _ _ _ _ _ m T' Hrun eq_refl Hty Hin) as H.
  unfold isBuy in H. case_bool_decide as Hs.
  - split; [done | congruence].
  - split; [done | intros _; exact H].
Qed.

Lemma limit_price_respected_witness :
  let b := two_sells_and_buyer.2 in
  let T1 := mkTrade "TRADE_AAPL_1" "B1" "S1" "AAPL" 100 5 in
  let T2 := mkTrade "TRADE_AAPL_2" "B1" "S2" "AAPL" 100 3 in
  exists b',
    addOrder (Some 2%nat) b = Ok ([T1; T2], b') /\
    type (deref b 2%nat) = LIMIT /\
    Forall (fun T =>
              (side (deref b 2%nat) = BUY ->
               trade_price T <= price (deref b 2%nat)) /\
              (side (deref b 2%nat) = SELL ->
               price (deref b 2%nat) <= trade_price T))
           [T1; T2].
Proof.
  intros b T1 T2.
  assert (E : exists b', addOrder (Some 2%nat) b = Ok ([T1; T2], b'))
    by (eexists; vm_compute; reflexivity).
  destruct E as [b' E].
  assert (Hty : type (deref b 2%nat) = LIMIT) by (vm_compute; reflexivity).
  clearbody b.
  exists b'. split; [exact E|]. split; [exact Hty|].
  exact (limit_price_respected b 2%nat [T1; T2] b' E Hty).
Defined.

Lemma addToOrderBook_opposite p b :
  opposite (sideOf (deref b p)) (addToOrderBook p b) =
  opposite (sideOf (deref b p)) b.
Proof. unfold addToOrderBook, sideOf. by destruct (isBuy _). Qed.

(** X17.  The matching loop is exhaustive: when [addOrder] returns for an
    order that is not a stop-loss order, the order has no quantity left,
    or the opposite queue is empty, or the order on top of the opposite
    queue is not compatible with it. *)
Theorem matching_is_exhaustive (b : OrderBook) (t : ptr) trades b' :
  addOrder (Some t) b = Ok (trades, b') ->
  isStopLoss (deref b t) = false ->
  remainingQuantity (deref b' t) <= 0 \/
  opposite (sideOf (deref b t)) b' = [] \/
  exists m,
    pq_top (oppositeComparator (sideOf (deref b t)) (mem b'))
           (opposite (sideOf (deref b t)) b') = Some m /\
    isCompatibleWith (deref b' t) (deref b' m) = false.
Proof.
  intros Hadd Hstop.
  destruct (addOrder_match _ _ _ _ Hadd Hstop) as (run & b1 & Hrun & _ & ->).
  pose proof (iterates_end _ _ _ _ _ Hrun) as Hend.
  pose proof (iterates_identity _ _ _ _ _ t Hrun) as Hid.
  set (s := sideOf (deref b t)) in *.
  destruct (Z.ltb_spec 0 (remainingQuantity (deref b1 t))) as [Hpos|Hle];
    [|by left].
  assert (Ho : opposite s (addToOrderBook t b1) = opposite s b1).
  { subst s. rewrite <- (sideOf_identity _ _ Hid).
    apply addToOrderBook_opposite. }
  unfold deref. rewrite addToOrderBook_mem, Ho. fold (deref b1 t).
  unfold matchIteration in Hend.
  destruct (pq_top _ _) as [m|] eqn:Htop.
  - right. right. exists m. split; [done|]. fold (deref b1 m).
    destruct (Z.ltb_spec 0 (remainingQuantity (deref b1 t))); [|lia].
    simpl in Hend. by destruct (isCompatibleWith _ _).
  - right. left. by apply pq_top_None in Htop.
Qed.

Lemma matching_is_exhaustive_witness :
  let b := two_sells_and_buyer.2 in
  let T1 := mkTrade "TRADE_AAPL_1" "B1" "S1" "AAPL" 100 5 in
  let T2 := mkTrade "TRADE_AAPL_2" "B1" "S2" "AAPL" 100 3 in
  exists b',
    addOrder (Some 2%nat) b = Ok ([T1; T2], b') /\
    isStopLoss (deref b 2%nat) = false /\
    (remainingQuantity (deref b' 2%nat) <= 0 \/
     opposite (sideOf (deref b 2%nat)) b' = [] \/
     exists m,
       pq_top (oppositeComparator (sideOf (deref b 2%nat)) (mem b'))
              (opposite (sideOf (deref b 2%nat)) b') = Some m /\
       isCompatibleWith (deref b' 2%nat) (deref b' m) = false).
Proof.
  intros b T1 T2.
  assert (E : exists b', addOrder (Some 2%nat) b = Ok ([T1; T2], b'))
    by (eexists; vm_compute; reflexivity).
  destruct E as [b' E].
  assert (Hty : isStopLoss (deref b 2%nat) = false) by (vm_compute; reflexivity).
  clearbody b.
  exists b'. split; [exact E|]. split; [exact Hty|].
  exact (matching_is_exhaustive b 2%nat [T1; T2] b' E Hty).
Defined.


(** ** Quantities and counters *)

Lemma removeFromOrderBook_counters id b :
  totalTrades (removeFromOrderBook id b) = totalTrades b /\
  totalVolume (removeFromOrderBook id b) = totalVolume b /\
  tradeIdCounter (removeFromOrderBook id b) = tradeIdCounter b.
Proof. unfold removeFromOrderBook. by destruct (orderMap b !! id). Qed.

Lemma addToOrderBook_counters p b :
  totalTrades (addToOrderBook p b) = totalTrades b /\
  totalVolume (addToOrderBook p b) = totalVolume b /\
  tradeIdCounter (addToOrderBook p b) = tradeIdCounter b /\
  bookSymbol (addToOrderBook p b) = bookSymbol b.
Proof. unfold addToOrderBook. by destruct (isBuy _). Qed.

Lemma matchIteration_counters s t b trade b' :
  matchIteration s t b = Some (Ok (trade, b')) ->
  totalTrades b' = totalTrades b + 1 /\
  tradeIdCounter b' = tradeIdCounter b + 1 /\
  tradeId trade =
    "TRADE_" +:+ bookSymbol b +:+ "_" +:+ pretty (tradeIdCounter b + 1) /\
  trade_symbol trade = bookSymbol b.
Proof.
  unfold matchIteration.
  destruct (pq_top _ _) as [m|] eqn:Htop; [|discriminate].
  destruct (Z.ltb_spec 0 (remainingQuantity (deref b t))) as [Hrt|]; simpl;
    [|discriminate].
  destruct (isCompatibleWith _ _) eqn:Hc; simpl; [|discriminate].
  destruct (isCompatibleWith_true _ _ Hc) as (Hside & _ & Hrm).
  assert (Hne : t <> m) by (intros ->; congruence).
  set (b1 := set_opposite s _ b).
  assert (Hd : forall p, deref b1 p = deref b p) by (by destruct s).
  rewrite !Hd.
  set (px := if isMarket (deref b m) then _ else _).
  set (q := Z.min _ _).
  assert (Hq : 0 < q) by (subst q; lia).
  assert (Hqt : q <= remainingQuantity (deref b1 t))
    by (rewrite Hd; subst q; lia).
  assert (Hqm : q <= remainingQuantity (deref b1 m))
    by (rewrite Hd; subst q; lia).
  assert (H1 : totalTrades b1 = totalTrades b /\
               tradeIdCounter b1 = tradeIdCounter b /\
               bookSymbol b1 = bookSymbol b) by (by destruct s).
  destruct H1 as (E1 & E2 & E3).
  destruct s; unfold executeTradeFor;
    rewrite executeTrade_Ok by (assumption || congruence);
    simpl; intros [= <- <-];
    (destruct (0 <? _);
     [|match goal with
       | |- context [removeFromOrderBook ?i ?b2] =>
           destruct (removeFromOrderBook_counters i b2) as (-> & _ & ->)
       end]); simpl; rewrite ?E1, ?E2, ?E3; done.
Qed.

Lemma iterates_counters s t b run b' :
  iterates s t b run b' ->
  totalTrades b' = totalTrades b + Z.of_nat (length run) /\
  tradeIdCounter b' = tradeIdCounter b + Z.of_nat (length run) /\
  bookSymbol b' = bookSymbol b /\
  Forall (fun T => trade_symbol T = bookSymbol b) (map snd run) /\
  map tradeId (map snd run) =
    map (fun i => "TRADE_" +:+ bookSymbol b +:+ "_" +:+
                  pretty (tradeIdCounter b + Z.of_nat i))
        (seq 1 (length run)).
Proof.
  induction 1 as [b _|b m trade b1 run b' Htop E _ IH].
  { simpl. repeat split; try lia. constructor. }
  pose proof (iterates_pass_facts _ _ _ _ _ _ Htop E) as F.
  destruct (matchIteration_counters _ _ _ _ _ E) as (C1 & C2 & C3 & C4).
  destruct IH as (I1 & I2 & I3 & I4 & I5).
  pose proof (pf_symbol _ _ _ _ _ _ F) as Hsym.
  rewrite Hsym in *. simpl length. split; [lia|]. split; [lia|].
  split; [done|]. split.
  - simpl. by constructor.
  - cbn [map seq snd length]. rewrite C3. f_equal.
    rewrite I5, <- (seq_shift (length run) 1), map_map.
    apply map_ext. intros i. rewrite C2.
    replace (tradeIdCounter b + 1 + Z.of_nat i)
      with (tradeIdCounter b + Z.of_nat (S i)) by lia.
    reflexivity.
Qed.

(** X18.  [addOrder] counts its trades: [totalTrades] and the trade id
    counter both grow by the number of trades returned, every trade
    carries the symbol of the book, and the trade ids are
    [TRADE_<symbol>_<n>] for the successive values [n] of the counter, so
    no two trades of a call have the same id. *)
Theorem addOrder_counts_trades (b : OrderBook) (t : ptr) trades b' :
  addOrder (Some t) b = Ok (trades, b') ->
  totalTrades b' = totalTrades b + Z.of_nat (length trades) /\
  tradeIdCounter b' = tradeIdCounter b + Z.of_nat (length trades) /\
  bookSymbol b' = bookSymbol b /\
  Forall (fun T => trade_symbol T = bookSymbol b) trades /\
  map tradeId trades =
    map (fun i => "TRADE_" +:+ bookSymbol b +:+ "_" +:+
                  pretty (tradeIdCounter b + Z.of_nat i))
        (seq 1 (length trades)) /\
  NoDup (map tradeId trades).
Proof.
  intros Hadd.
  assert (H : totalTrades b' = totalTrades b + Z.of_nat (length trades) /\
              tradeIdCounter b' = tradeIdCounter b + Z.of_nat (length trades) /\
              bookSymbol b' = bookSymbol b /\
              Forall (fun T => trade_symbol T = bookSymbol b) trades /\
              map tradeId trades =
                map (fun i => "TRADE_" +:+ bookSymbol b +:+ "_" +:+
                              pretty (tradeIdCounter b + Z.of_nat i))
                    (seq 1 (length trades))).
  { destruct (isStopLoss (deref b t)) eqn:Hstop.
    - unfold addOrder in Hadd. destruct (negb _); [discriminate|].
      rewrite Hstop in Hadd. injection Hadd as <- <-.
      destruct (isBuy _);
        match goal with
        | |- context [addToOrderBook t ?b1] =>
            destruct (addToOrderBook_counters t b1) as (-> & _ & -> & ->)
        end; simpl; repeat split; try lia; constructor.
    - destruct (addOrder_match _ _ _ _ Hadd Hstop)
        as (run & b1 & Hrun & -> & ->).
      destruct (iterates_counters _ _ _ _ _ Hrun) as (I1 & I2 & I3 & I4 & I5).
      rewrite length_map.
      destruct (0 <? _);
        [destruct (addToOrderBook_counters t b1) as (-> & _ & -> & ->)|];
        done. }
  destruct H as (H1 & H2 & H3 & H4 & H5).
  repeat (split; [done|]).
  rewrite H5. apply NoDup_fmap_2_strong; [|apply NoDup_seq].
  intros i j _ _ Hij.
  apply (inj (String.app _)) in Hij. apply (inj (String.app _)) in Hij.
  apply (inj (String.app _)) in Hij. apply (inj pretty) in Hij. lia.
Qed.

Lemma addOrder_counts_trades_witness :
  let b := two_sells_and_buyer.2 in
  let T1 := mkTrade "TRADE_AAPL_1" "B1" "S1" "AAPL" 100 5 in
  let T2 := mkTrade "TRADE_AAPL_2" "B1" "S2" "AAPL" 100 3 in
  exists b',
    addOrder (Some 2%nat) b = Ok ([T1; T2], b') /\
    totalTrades b' = totalTrades b + 2 /\
    tradeIdCounter b' = tradeIdCounter b + 2 /\
    NoDup (map tradeId [T1; T2]).
Proof.
  intros b T1 T2.
  assert (E : exists b', addOrder (Some 2%nat) b = Ok ([T1; T2], b'))
    by (eexists; vm_compute; reflexivity).
  destruct E as [b' E].
  clearbody b.
  exists b'. split; [exact E|].
  destruct (addOrder_counts_trades b 2%nat [T1; T2] b' E)
    as (H1 & H2 & _ & _ & _ & H3).
  split; [exact H1|]. split; [exact H2 | exact H3].
Defined.


Lemma remaining_sum_same b b' (l : list ptr) :
  (forall x, x ∈ l -> deref b' x = deref b x) ->
  remaining_sum b' l = remaining_sum b l.
Proof.
  unfold remaining_sum. induction l as [|y l IH]; intros H; [done|].
  simpl. rewrite (H y) by left. rewrite IH; [done|].
  intros x Hx. apply H. by right.
Qed.

Lemma remaining_sum_one b b' (l : list ptr) m q :
  NoDup l -> m ∈ l ->
  (forall x, x ∈ l -> x <> m -> deref b' x = deref b x) ->
  remainingQuantity (deref b' m) = remainingQuantity (deref b m) - q ->
  remaining_sum b' l = remaining_sum b l - q.
Proof.
  induction l as [|y l IH]; intros Hnd Hm Hsame Hq.
  { by apply elem_of_nil in Hm. }
  apply NoDup_cons in Hnd as [Hy Hnd].
  change (remaining_sum b' (y :: l))
    with (remainingQuantity (deref b' y) + remaining_sum b' l).
  change (remaining_sum b (y :: l))
    with (remainingQuantity (deref b y) + remaining_sum b l).
  destruct (decide (y = m)) as [->|Hne].
  - rewrite Hq, (remaining_sum_same b b' l); [lia|].
    intros x Hx. apply Hsame; [by right|]. intros ->. done.
  - rewrite (Hsame y) by (done || left).
    rewrite IH; [lia|done| |intros x Hx; apply Hsame; by right|done].
    apply elem_of_cons in Hm as [->|Hm]; done.
Qed.

Lemma iterates_conservation s t b run b' (l : list ptr) :
  iterates s t b run b' ->
  remainingQuantity (deref b' t) =
    remainingQuantity (deref b t) - traded_quantity (map snd run) /\
  Forall (fun T => 0 < trade_quantity T) (map snd run) /\
  (forall x, remainingQuantity (deref b' x) <= remainingQuantity (deref b x) /\
             (0 <= remainingQuantity (deref b x) ->
              0 <= remainingQuantity (deref b' x))) /\
  (NoDup l -> t ∉ l -> (forall x, x ∈ opposite s b -> x ∈ l) ->
   remaining_sum b' l = remaining_sum b l - traded_quantity (map snd run)).
Proof.
  induction 1 as [b _|b m trade b1 run b' Htop E _ IH].
  { unfold traded_quantity. simpl. repeat split; try lia. constructor. }
  pose proof (iterates_pass_facts _ _ _ _ _ _ Htop E) as F.
  destruct (pass_facts_remaining _ _ _ _ _ _ F) as (Hq & Ht & Hm & Ht0 & Hm0 & _).
  destruct IH as (I1 & I2 & I3 & I4).
  change (traded_quantity (map snd ((m, trade) :: run)))
    with (trade_quantity trade + traded_quantity (map snd run)).
  split; [lia|]. split; [by constructor|]. split.
  - intros x. destruct (I3 x) as [J1 J2].
    destruct (pass_cases _ _ _ _ _ _ x F) as [Ex|[Hx Ex]].
    + rewrite Ex in *. done.
    + assert (remainingQuantity (deref b1 x) =
              remainingQuantity (deref b x) - trade_quantity trade)
        by (rewrite Ex; reflexivity).
      assert (0 <= remainingQuantity (deref b1 x))
        by (destruct Hx as [-> | ->]; done).
      lia.
  - intros Hnd Htl Hsub.
    rewrite I4; [|done|done|].
    2:{ intros x Hx. apply Hsub. by eapply pass_opposite_subset. }
    rewrite (remaining_sum_one b b1 l m (trade_quantity trade)); [lia|done|..].
    + apply Hsub. eapply pq_top_elem, Htop.
    + intros x Hx Hne. apply deref_lookup, (pf_others _ _ _ _ _ _ F); [|done].
      intros ->. done.
    + done.
Qed.

(** X19.  Quantity is conserved.  The incoming order is filled by exactly
    the sum of the quantities of the trades [addOrder] returns, each of
    which is positive; the orders of the opposite queue (any list [l]
    without repetition that holds them and not the incoming order) lose
    the same sum; and no remaining quantity grows or becomes negative. *)
Theorem quantity_conserved (b : OrderBook) (t : ptr) trades b'
    (l : list ptr) :
  addOrder (Some t) b = Ok (trades, b') ->
  NoDup l -> t ∉ l ->
  (forall x, x ∈ opposite (sideOf (deref b t)) b -> x ∈ l) ->
  remainingQuantity (deref b' t) =
    remainingQuantity (deref b t) - traded_quantity trades /\
  remaining_sum b' l = remaining_sum b l - traded_quantity trades /\
  Forall (fun T => 0 < trade_quantity T) trades /\
  (forall x, remainingQuantity (deref b' x) <= remainingQuantity (deref b x) /\
             (0 <= remainingQuantity (deref b x) ->
              0 <= remainingQuantity (deref b' x))).
Proof.
  intros Hadd Hnd Htl Hsub.
  destruct (isStopLoss (deref b t)) eqn:Hstop.
  - unfold addOrder in Hadd. destruct (negb _); [discriminate|].
    rewrite Hstop in Hadd. injection Hadd as <- <-.
    assert (Hd : forall x,
               deref (addToOrderBook t
                        (if isBuy (deref b t)
                         then set_buyStopLossOrders
                                (insert (StopLossBuyComparator (mem b))
                                        (buyStopLossOrders b) t) b
                         else set_sellStopLossOrders
                                (insert (StopLossSellComparator (mem b))
                                        (sellStopLossOrders b) t) b)) x =
               deref b x).
    { intros x. unfold deref. rewrite addToOrderBook_mem.
      by destruct (isBuy _). }
    rewrite (remaining_sum_same b _ l) by (intros; apply Hd).
    rewrite Hd. unfold traded_quantity. simpl.
    repeat split; try lia; try constructor; rewrite Hd; lia.
  - destruct (addOrder_match _ _ _ _ Hadd Hstop) as (run & b1 & Hrun & -> & ->).
    destruct (iterates_conservation _ _ _ _ _ l Hrun) as (I1 & I2 & I3 & I4).
    assert (Hd : forall x,
               deref (if 0 <? remainingQuantity (deref b1 t)
                      then addToOrderBook t b1 else b1) x = deref b1 x).
    { intros x. destruct (0 <? _); [|done].
      unfold deref. by rewrite addToOrderBook_mem. }
    rewrite (remaining_sum_same b1 _ l) by (intros; apply Hd).
    rewrite Hd. split; [done|]. split; [by apply I4|]. split; [done|].
    intros x. rewrite Hd. apply I3.
Qed.

Lemma quantity_conserved_witness :
  let b := two_sells_and_buyer.2 in
  let T1 := mkTrade "TRADE_AAPL_1" "B1" "S1" "AAPL" 100 5 in
  let T2 := mkTrade "TRADE_AAPL_2" "B1" "S2" "AAPL" 100 3 in
  exists b',
    addOrder (Some 2%nat) b = Ok ([T1; T2], b') /\
    NoDup [0%nat; 1%nat] /\ (2%nat ∉ [0%nat; 1%nat]) /\
    (forall x, x ∈ opposite (sideOf (deref b 2%nat)) b ->
               x ∈ [0%nat; 1%nat]) /\
    remainingQuantity (deref b' 2%nat) =
      remainingQuantity (deref b 2%nat) - traded_quantity [T1; T2] /\
    remaining_sum b' [0%nat; 1%nat] =
      remaining_sum b [0%nat; 1%nat] - traded_quantity [T1; T2].
Proof.
  intros b T1 T2.
  assert (E : exists b', addOrder (Some 2%nat) b = Ok ([T1; T2], b'))
    by (eexists; vm_compute; reflexivity).
  destruct E as [b' E].
  assert (Hopp : opposite (sideOf (deref b 2%nat)) b = [0%nat; 1%nat])
    by (vm_compute; reflexivity).
  assert (Hnd : NoDup [0%nat; 1%nat]).
  { apply NoDup_cons. split; [|apply NoDup_singleton].
    intros H. apply list_elem_of_singleton in H. discriminate. }
  assert (Hnot : 2%nat ∉ [0%nat; 1%nat]).
  { intros H. apply elem_of_cons in H as [H|H]; [discriminate|].
    apply list_elem_of_singleton in H. discriminate. }
  assert (Hsub : forall x, x ∈ opposite (sideOf (deref b 2%nat)) b ->
                           x ∈ [0%nat; 1%nat]).
  { intros x Hx. rewrite Hopp in Hx. exact Hx. }
  clearbody b.
  exists b'. split; [exact E|]. split; [exact Hnd|]. split; [exact Hnot|].
  split; [exact Hsub|].
  destruct (quantity_conserved b 2%nat [T1; T2] b' [0%nat; 1%nat] E Hnd Hnot
              Hsub) as (H1 & H2 & _).
  split; [exact H1 | exact H2].
Defined.


(** ** Books of live LIMIT orders *)

Lemma matchIteration_orderMap s t b m trade b' :
  pq_top (oppositeComparator s (mem b)) (opposite s b) = Some m ->
  matchIteration s t b = Some (Ok (trade, b')) ->
  orderMap b' =
    if 0 <? remainingQuantity (deref b' m) then orderMap b
    else delete (orderId (deref b m)) (orderMap b).
Proof.
  intros Htop E.
  pose proof (iterates_pass_facts _ _ _ _ _ _ Htop E) as F.
  revert E. unfold matchIteration. rewrite Htop.
  destruct (Z.ltb_spec 0 (remainingQuantity (deref b t))) as [Hrt|]; simpl;
    [|discriminate].
  destruct (isCompatibleWith _ _) eqn:Hc; simpl; [|discriminate].
  destruct (isCompatibleWith_true _ _ Hc) as (Hside & _ & Hrm).
  rewrite (pq_pop_top _ _ _ Htop).
  set (b1 := set_opposite s (remove_first m (opposite s b)) b).
  assert (Hd : forall p, deref b1 p = deref b p) by (by destruct s).
  assert (Hom1 : orderMap b1 = orderMap b) by (by destruct s).
  set (px := if isMarket (deref b1 m) then _ else _).
  set (q := Z.min _ _).
  destruct (executeTradeFor_Ok s t m px q b1) as
    (trade2 & b2 & -> & _ & _ & _ & _ & _ & Hm2 & _ & _ & _ & Hom & _);
    [exact (pf_distinct _ _ _ _ _ _ F) | subst q; rewrite !Hd; lia ..|].
  simpl. intros [= <- <-].
  destruct (Z.ltb_spec 0 (remainingQuantity (deref b2 m))) as [Hpos|Hle].
  - assert (Hd3 : deref (set_opposite s (pq_push m (opposite s b2)) b2) m =
                  deref b2 m) by (by destruct s).
    rewrite Hd3. rewrite (proj2 (Z.ltb_lt _ _) Hpos).
    rewrite <- Hom1, <- Hom. by destruct s.
  - assert (Hid : orderId (deref b2 m) = orderId (deref b m)).
    { rewrite Hm2, Hd. reflexivity. }
    rewrite Hid.
    destruct (removeFromOrderBook_frame (orderId (deref b m)) b2) as (Fm & _).
    assert (Hd3 : deref (removeFromOrderBook (orderId (deref b m)) b2) m =
                  deref b2 m).
    { generalize (orderId (deref b m)) Fm. intros i Fi.
      unfold deref. by rewrite Fi. }
    rewrite Hd3. rewrite (proj2 (Z.ltb_ge _ _) Hle).
    rewrite <- Hom1, <- Hom.
    unfold removeFromOrderBook.
    destruct (orderMap b2 !! orderId (deref b m)) eqn:El; [done|].
    by rewrite delete_id.
Qed.

Lemma limit_book_sided s b : limit_book b <-> sided_book s b.
Proof.
  unfold limit_book, sided_book. rewrite NoDup_app. split.
  - intros ((Nb & Dj & Ns) & Rb & Rs & Ap & I1 & I2).
    assert (J1 : forall p, p ∈ buyOrders b \/ p ∈ sellOrders b ->
                   orderMap b !! orderId (deref b p) = Some p)
      by (intros p Hp; apply I1, elem_of_app, Hp).
    assert (J2 : forall id p, orderMap b !! id = Some p ->
                   (p ∈ buyOrders b \/ p ∈ sellOrders b) /\
                   orderId (deref b p) = id).
    { intros id p H. destruct (I2 id p H) as [H1 H2].
      split; [by apply elem_of_app | done]. }
    destruct s; simpl; split_and!; try done.
    + intros x H1 H2. by apply (Dj x).
    + intros p q Hp Hq. by apply Ap.
    + intros p [H|H]; apply J1; auto.
    + intros id p H. destruct (J2 id p H) as [[H1|H1] H2]; auto.
  - intros (No & Np & Dj & Ro & Rp & Ap & I1 & I2).
    destruct s; simpl in *; split_and!; try done.
    + intros p Hp. apply I1, elem_of_app, Hp.
    + intros id p H. destruct (I2 id p H) as [H1 H2].
      split; [by apply elem_of_app | done].
    + intros x H1 H2. by apply (Dj x).
    + intros p q Hp Hq. by apply (Ap q p).
    + intros p Hp. apply I1. apply elem_of_app in Hp as [Hp|Hp]; auto.
    + intros id p H. destruct (I2 id p H) as [[H1|H1] H2];
        (split; [|done]); apply elem_of_app; auto.
Qed.

Lemma resting_same b b' sd p :
  deref b' p = deref b p -> bookSymbol b' = bookSymbol b ->
  resting b sd p -> resting b' sd p.
Proof. unfold resting. by intros -> ->. Qed.

Lemma filled_live q o :
  0 < remainingQuantity o - q ->
  status (filled q o) <> FILLED /\ status (filled q o) <> CANCELLED.
Proof.
  intros H. unfold filled. simpl.
  destruct (Z.eqb_spec (remainingQuantity o - q) 0); [lia|done].
Qed.

Lemma matching_state_pass s t b m trade b1 :
  pq_top (oppositeComparator s (mem b)) (opposite s b) = Some m ->
  matchIteration s t b = Some (Ok (trade, b1)) ->
  matching_state s t b -> matching_state s t b1.
Proof.
  intros Htop E (Hsb & Hty & Hsd & Hsy & Hst & Hto & Htp & Htid).
  destruct Hsb as (N1 & N2 & Dj & Ro & Rp & Ap & I1 & I2).
  pose proof (iterates_pass_facts _ _ _ _ _ _ Htop E) as F.
  pose proof (matchIteration_orderMap _ _ _ _ _ _ Htop E) as Hom.
  pose proof (pq_top_elem _ _ _ Htop) as Hm.
  pose proof (pf_own _ _ _ _ _ _ F) as Hown.
  pose proof (pf_symbol _ _ _ _ _ _ F) as Hsym.
  destruct (remove_first_NoDup m _ N2) as [N3 Hm3].
  assert (Hsame : forall x, x <> t -> x <> m -> deref b1 x = deref b x).
  { intros x H1 H2. apply deref_lookup, (pf_others _ _ _ _ _ _ F); done. }
  assert (Hidn : forall x, orderId (deref b1 x) = orderId (deref b x)).
  { intros x. by destruct (pass_identity _ _ _ _ _ _ x F) as (-> & _). }
  assert (Hpr : forall x, price (deref b1 x) = price (deref b x)).
  { intros x. by destruct (pass_identity _ _ _ _ _ _ x F) as (_&_&_&_&_&->&_). }
  assert (Hownne : forall x, x ∈ own s b -> x <> t /\ x <> m).
  { intros x Hx. split; intros ->; [done|]. by apply (Dj m). }
  assert (Hopp : forall x, x ∈ opposite s b1 ->
                  x ∈ opposite s b /\
                  (x = m -> 0 < remainingQuantity (deref b1 m))).
  { intros x Hx. split; [by eapply pass_opposite_subset|].
    intros ->. rewrite (pf_opposite _ _ _ _ _ _ F) in Hx.
    destruct (Z.ltb_spec 0 (remainingQuantity (deref b1 m))); done. }
  assert (Hkeep : forall x, x ∈ opposite s b -> x <> m -> x ∈ opposite s b1).
  { intros x Hx Hne. by eapply pass_opposite_keeps. }
  assert (Hmrest : 0 < remainingQuantity (deref b1 m) -> resting b1 (flip s) m).
  { intros Hpos. destruct (Rp m Hm) as (R1 & R2 & R3 & R4 & R5 & R6).
    unfold resting. rewrite Hsym. rewrite (pf_maker _ _ _ _ _ _ F) in *.
    split_and!; try done; by apply filled_live. }
  assert (Hdel : forall x, x <> m -> (x ∈ own s b \/ x ∈ opposite s b) ->
                  orderId (deref b x) <> orderId (deref b m)).
  { intros x Hne Hx Heq. apply Hne.
    pose proof (I1 x Hx) as J1. pose proof (I1 m (or_intror Hm)) as J2.
    rewrite Heq, J2 in J1. by injection J1. }
  unfold matching_state, sided_book. rewrite Hown. split_and!.
  - done.
  - rewrite (pf_opposite _ _ _ _ _ _ F). destruct (0 <? _); [|done].
    apply NoDup_app. split; [done|]. split; [|apply NoDup_singleton].
    intros x Hx Hx'. apply list_elem_of_singleton in Hx' as ->. done.
  - intros x Hx Hx'. apply (Dj x Hx). by apply Hopp.
  - intros p Hp. destruct (Hownne p Hp).
    apply (resting_same b); [by apply Hsame | done | by apply Ro].
  - intros p Hp. destruct (Hopp p Hp) as [Hp' Hpm].
    destruct (decide (p = m)) as [->|Hne]; [by apply Hmrest, Hpm|].
    apply (resting_same b); [|done|by apply Rp].
    apply Hsame; [|done]. intros ->. done.
  - intros p q Hp Hq. destruct (Hopp q Hq) as [Hq' _].
    pose proof (Ap p q Hp Hq') as H. unfold apart in *.
    by rewrite !Hpr.
  - intros p Hp. rewrite Hidn, Hom.
    assert (Hp' : p ∈ own s b \/ p ∈ opposite s b).
    { destruct Hp as [Hp|Hp]; [by left | right; by apply Hopp]. }
    destruct (Z.ltb_spec 0 (remainingQuantity (deref b1 m))) as [Hpos|Hle];
      [by apply I1|].
    rewrite lookup_delete_ne; [by apply I1|].
    apply not_eq_sym, Hdel; [|done].
    intros ->. destruct Hp as [Hp|Hp]; [by apply (Dj m)|].
    destruct (Hopp m Hp) as [_ Hpos]. specialize (Hpos eq_refl). lia.
  - intros id p H. rewrite Hidn. rewrite Hom in H.
    destruct (Z.ltb_spec 0 (remainingQuantity (deref b1 m))) as [Hpos|Hle].
    + destruct (I2 id p H) as [[Hp|Hp] Hid]; (split; [|done]); [by left | right].
      destruct (decide (p = m)) as [->|Hne]; [|by apply Hkeep].
      rewrite (pf_opposite _ _ _ _ _ _ F), (proj2 (Z.ltb_lt _ _) Hpos).
      apply elem_of_app. right. left.
    + apply lookup_delete_Some in H as [Hne H].
      destruct (I2 id p H) as [[Hp|Hp] Hid]; (split; [|done]); [by left | right].
      apply Hkeep; [done|]. intros ->. done.
  - by destruct (pass_identity _ _ _ _ _ _ t F) as (_&_&_&->&_).
  - by destruct (pass_identity _ _ _ _ _ _ t F) as (_&_&_&_&->&_).
  - rewrite Hsym. by destruct (pass_identity _ _ _ _ _ _ t F) as (_&_&->&_).
  - rewrite (pf_taker _ _ _ _ _ _ F). apply filled_live.
  - done.
  - intros H. apply Htp. by apply Hopp.
  - rewrite Hidn, Hom. destruct (0 <? _); [done|].
    by apply lookup_delete_None; right.
Qed.

Lemma matching_state_run s t b run b' :
  iterates s t b run b' -> matching_state s t b -> matching_state s t b'.
Proof.
  induction 1 as [b _|b m trade b1 run b' Htop E _ IH]; [done|].
  intros H. apply IH. by eapply matching_state_pass.
Qed.

Lemma side_sideOf o : side o = sideOf o.
Proof. unfold sideOf, isBuy. by destruct (side o). Qed.

(** When the loop ends with quantity left in the incoming LIMIT order, the
    order cannot trade with any order of the opposite queue. *)
Lemma matching_state_end s t b :
  matching_state s t b -> matchIteration s t b = None ->
  0 < remainingQuantity (deref b t) ->
  forall q, q ∈ opposite s b -> apart b s t q.
Proof.
  intros (Hsb & Hty & Hsd & Hsy & Hst & _) Hend Hpos q Hq.
  destruct Hsb as (_ & _ & _ & _ & Rp & _).
  destruct (Hst Hpos) as [Hs1 Hs2].
  unfold matchIteration in Hend.
  destruct (pq_top _ _) as [m|] eqn:Htop;
    [|apply pq_top_None in Htop; rewrite Htop in Hq;
      destruct (proj1 (elem_of_nil q) Hq)].
  rewrite (proj2 (Z.ltb_lt _ _) Hpos) in Hend. simpl in Hend.
  destruct (isCompatibleWith _ _) eqn:Hc; [discriminate|].
  destruct (Rp m (pq_top_elem _ _ _ Htop)) as (M1 & M2 & M3 & M4 & M5 & M6).
  pose proof (pq_top_max _ (oppositeComparator_irrefl s (mem b))
                (oppositeComparator_trans s (mem b)) _ _ q Htop Hq) as Hmax.
  unfold isCompatibleWith, isBuy, isSell, isMarket in Hc.
  rewrite Hsy, M3, Hsd, M2, Hty, M1 in Hc.
  rewrite bool_decide_eq_true_2 in Hc by done. simpl in Hc.
  rewrite (bool_decide_eq_false_2 (status (deref b t) = FILLED)),
    (bool_decide_eq_false_2 (status (deref b t) = CANCELLED)),
    (bool_decide_eq_false_2 (status (deref b m) = FILLED)),
    (bool_decide_eq_false_2 (status (deref b m) = CANCELLED)) in Hc by done.
  destruct (Z.leb_spec (remainingQuantity (deref b t)) 0); [lia|].
  destruct (Z.leb_spec (remainingQuantity (deref b m)) 0); [lia|].
  unfold apart. unfold oppositeComparator in Hmax.
  fold (deref b m) in *. 
  destruct s; simpl in Hc, Hmax.
  - unfold SellOrderComparator in Hmax. fold (deref b m) (deref b q) in Hmax.
    destruct (Z.leb_spec (price (deref b m)) (price (deref b t)));
      [discriminate|].
    destruct (Z.eqb_spec (price (deref b m)) (price (deref b q))); simpl in Hmax;
      [lia|]. apply Z.ltb_ge in Hmax. lia.
  - unfold BuyOrderComparator in Hmax. fold (deref b m) (deref b q) in Hmax.
    destruct (Z.leb_spec (price (deref b t)) (price (deref b m)));
      [discriminate|].
    destruct (Z.eqb_spec (price (deref b m)) (price (deref b q))); simpl in Hmax;
      [lia|]. apply Z.ltb_ge in Hmax. lia.
Qed.

Lemma addToOrderBook_sided t b :
  own (sideOf (deref b t)) (addToOrderBook t b) =
    own (sideOf (deref b t)) b ++ [t] /\
  orderMap (addToOrderBook t b) = <[orderId (deref b t) := t]> (orderMap b).
Proof. unfold addToOrderBook, sideOf. by destruct (isBuy _). Qed.

Lemma sided_book_push s t b :
  matching_state s t b -> 0 < remainingQuantity (deref b t) ->
  (forall q, q ∈ opposite s b -> apart b s t q) ->
  sided_book s (addToOrderBook t b).
Proof.
  intros (Hsb & Hty & Hsd & Hsy & Hst & Hto & Htp & Htid) Hpos Hap.
  destruct Hsb as (N1 & N2 & Dj & Ro & Rp & Ap & I1 & I2).
  destruct (Hst Hpos) as [Hs1 Hs2].
  rewrite side_sideOf in Hsd. subst s.
  destruct (addToOrderBook_sided t b) as [Eown Emap].
  pose proof (addToOrderBook_opposite t b) as Eopp.
  pose proof (addToOrderBook_mem t b) as Emem.
  destruct (addToOrderBook_counters t b) as (_ & _ & _ & Esym).
  assert (Ed : forall x, deref (addToOrderBook t b) x = deref b x).
  { intros x. unfold deref. by rewrite Emem. }
  assert (Rt : resting b (sideOf (deref b t)) t).
  { unfold resting. by rewrite side_sideOf. }
  assert (Hne : forall p, p ∈ own (sideOf (deref b t)) b \/
                          p ∈ opposite (sideOf (deref b t)) b ->
                  orderId (deref b t) <> orderId (deref b p)).
  { intros p Hp Heq. rewrite Heq, (I1 p Hp) in Htid. discriminate. }
  unfold sided_book. rewrite Eown, Eopp, Emap. split_and!.
  - apply NoDup_app. split; [done|]. split; [|apply NoDup_singleton].
    intros x Hx Hx'. apply list_elem_of_singleton in Hx' as ->. done.
  - done.
  - intros x Hx. apply elem_of_app in Hx as [Hx|Hx]; [by apply Dj|].
    apply list_elem_of_singleton in Hx as ->. done.
  - intros p Hp. apply (resting_same b); [apply Ed | done |].
    apply elem_of_app in Hp as [Hp|Hp]; [by apply Ro|].
    by apply list_elem_of_singleton in Hp as ->.
  - intros p Hp. apply (resting_same b); [apply Ed | done | by apply Rp].
  - intros p q Hp Hq.
    assert (H : apart b (sideOf (deref b t)) p q).
    { apply elem_of_app in Hp as [Hp|Hp]; [by apply Ap|].
      apply list_elem_of_singleton in Hp as ->. by apply Hap. }
    unfold apart in *. by rewrite !Ed.
  - intros p Hp. rewrite Ed.
    destruct (decide (p = t)) as [->|Hpt]; [by rewrite lookup_insert_eq|].
    assert (Hp' : p ∈ own (sideOf (deref b t)) b \/
                  p ∈ opposite (sideOf (deref b t)) b).
    { destruct Hp as [Hp|Hp]; [|by right].
      apply elem_of_app in Hp as [Hp|Hp]; [by left|].
      by apply list_elem_of_singleton in Hp. }
    rewrite lookup_insert_ne; [by apply I1 | by apply Hne].
  - intros id p H. rewrite Ed.
    apply lookup_insert_Some in H as [[<- <-]|[Hid H]].
    + split; [|done]. left. apply elem_of_app. right. left.
    + destruct (I2 id p H) as [[Hp|Hp] Hid']; (split; [|done]);
        [left; apply elem_of_app; by left | by right].
Qed.

Lemma Order_new_Ok id user sym ty sd px qty trigger now o :
  Order_new id user sym ty sd px qty trigger now = Ok o ->
  o = mkOrder id user sym ty sd px qty qty PENDING now trigger /\ 0 < qty.
Proof.
  unfold Order_new. repeat (destruct (empty _); [discriminate|]).
  destruct (Z.leb_spec qty 0); [discriminate|].
  destruct (_ && _); [discriminate|]. destruct (_ && _); [discriminate|].
  by intros [= <-].
Qed.

(** A queued pointer of a [limit_book] points to an allocated object, so
    [make_shared] leaves the objects of the queues as they are. *)
Lemma limit_book_make_shared o b :
  limit_book b ->
  limit_book (make_shared o b).2 /\
  deref (make_shared o b).2 (make_shared o b).1 = o /\
  (make_shared o b).1 ∉ buyOrders b ++ sellOrders b.
Proof.
  intros (N & Rb & Rs & Ap & I1 & I2). unfold make_shared. simpl.
  set (p := fresh (dom (mem b))).
  assert (Hp : mem b !! p = None).
  { apply not_elem_of_dom. apply is_fresh. }
  assert (Hq : forall q, q ∈ buyOrders b ++ sellOrders b -> q <> p).
  { intros q Hq ->.
    assert (R : 0 < remainingQuantity (deref b p)).
    { apply elem_of_app in Hq as [Hq|Hq];
        [destruct (Rb p Hq) as (_&_&_&R&_) | destruct (Rs p Hq) as (_&_&_&R&_)];
        exact R. }
    unfold deref in R. rewrite lookup_total_alt, Hp in R. simpl in R. lia. }
  assert (Ed : forall q, q ∈ buyOrders b ++ sellOrders b ->
                 deref (set_mem (<[p:=o]> (mem b)) b) q = deref b q).
  { intros q Hq'. apply deref_lookup. simpl.
    apply lookup_insert_ne. apply not_eq_sym. by apply Hq. }
  split; [|split].
  - unfold limit_book. simpl. split_and!.
    + done.
    + intros q Hq'. apply (resting_same b); [|done|by apply Rb].
      apply Ed, elem_of_app. by left.
    + intros q Hq'. apply (resting_same b); [|done|by apply Rs].
      apply Ed, elem_of_app. by right.
    + intros q r Hq' Hr. rewrite !Ed by (apply elem_of_app; auto).
      by apply Ap.
    + intros q Hq'. rewrite Ed by done. by apply I1.
    + intros id q H. destruct (I2 id q H) as [H1 H2].
      split; [done|]. by rewrite Ed.
  - unfold deref. simpl. by rewrite lookup_total_insert_eq.
  - intros H. by apply (Hq p).
Qed.

Lemma limit_book_addOrder b t trades b' :
  limit_book b -> new_limit_order b t ->
  addOrder (Some t) b = Ok (trades, b') ->
  limit_book b'.
Proof.
  intros Hlb (Hty & Hsy & Hpos & Hs1 & Hs2 & Hnot & Hid) Hadd.
  assert (Hstop : isStopLoss (deref b t) = false).
  { unfold isStopLoss. rewrite Hty. reflexivity. }
  destruct (addOrder_match _ _ _ _ Hadd Hstop) as (run & b1 & Hrun & _ & ->).
  set (s := sideOf (deref b t)) in *.
  assert (H0 : matching_state s t b).
  { unfold matching_state. split_and!; try done.
    - by apply limit_book_sided.
    - apply side_sideOf.
    - intros H. apply Hnot. destruct s; apply elem_of_app; auto.
    - intros H. apply Hnot. destruct s; apply elem_of_app; auto. }
  pose proof (matching_state_run _ _ _ _ _ Hrun H0) as H1.
  destruct (Z.ltb_spec 0 (remainingQuantity (deref b1 t))) as [Hp|Hp].
  - apply (limit_book_sided s). apply sided_book_push; [done..|].
    apply matching_state_end; [done| |done].
    by eapply iterates_end.
  - apply (limit_book_sided s). by destruct H1.
Qed.

(** A [limit_book] with orders on both sides is not crossed. *)
Lemma limit_book_uncrossed b :
  limit_book b -> buyOrders b <> [] -> sellOrders b <> [] ->
  getBestBid b < getBestAsk b.
Proof.
  intros (_ & _ & _ & Ap & _) Hb Hs. unfold getBestBid, getBestAsk.
  destruct (pq_top _ (buyOrders b)) as [p|] eqn:Ep;
    [|by apply pq_top_None in Ep].
  destruct (pq_top _ (sellOrders b)) as [q|] eqn:Eq;
    [|by apply pq_top_None in Eq].
  apply Ap; by eapply pq_top_elem.
Qed.

(** X20.  Books of live LIMIT orders stay in order.  Call a book a limit
    book when its two queues hold LIMIT orders of their side that are live
    (quantity left, neither FILLED nor CANCELLED), each once, when every
    bid is priced below every ask, and when the id index holds exactly the
    queued orders.  A successful [submit] of a LIMIT order whose id is not
    in the index turns a limit book into a limit book; in particular the
    book it leaves is not crossed: with orders on both sides,
    [getBestBid] is below [getBestAsk].  A new book is a limit book
    ([limit_book_new]), so the property holds along every sequence of
    such submissions. *)
Theorem limit_submit_keeps_book (b : OrderBook) (id user sym : string)
    (sd : OrderSide) (px qty trigger now : Z) p trades b' :
  limit_book b ->
  orderMap b !! id = None ->
  submit id user sym LIMIT sd px qty trigger now b = Ok (p, trades, b') ->
  limit_book b' /\
  (buyOrders b' <> [] -> sellOrders b' <> [] -> getBestBid b' < getBestAsk b').
Proof.
  intros Hlb Hid Hsub. unfold submit in Hsub.
  destruct (Order_new _ _ _ _ _ _ _ _ _) as [o| |] eqn:Hnew; try discriminate.
  apply Order_new_Ok in Hnew as [Ho Hqty].
  cbv beta iota delta [bind] in Hsub.
  pose proof (limit_book_make_shared o b Hlb) as H.
  assert (Eq : buyOrders (make_shared o b).2 = buyOrders b /\
               sellOrders (make_shared o b).2 = sellOrders b /\
               orderMap (make_shared o b).2 = orderMap b /\
               bookSymbol (make_shared o b).2 = bookSymbol b) by done.
  destruct (make_shared o b) as [t b0]. cbn [fst snd] in H, Eq.
  destruct H as (Hlb1 & Hd & Hnot). destruct Eq as (Eb & Es & Em & Ey).
  destruct (addOrder (Some t) b0) as [[trades0 b2]| |] eqn:Hadd;
    try discriminate.
  injection Hsub as _ _ <-.
  assert (Hlb2 : limit_book b2).
  { apply (limit_book_addOrder b0 t trades0); [done| |done].
    unfold new_limit_order. rewrite Hd, Eb, Es, Em, Ho. simpl.
    split_and!; try done.
    unfold addOrder in Hadd. rewrite Hd, Ho in Hadd. simpl in Hadd.
    case_bool_decide; [done|discriminate]. }
  split; [done|]. by apply limit_book_uncrossed.
Qed.

Lemma limit_book_new sym : limit_book (OrderBook_new sym).
Proof.
  unfold limit_book. simpl. split_and!.
  - apply NoDup_nil_2.
  - intros p Hp. destruct (proj1 (elem_of_nil p) Hp).
  - intros p Hp. destruct (proj1 (elem_of_nil p) Hp).
  - intros p q Hp. destruct (proj1 (elem_of_nil p) Hp).
  - intros p Hp. destruct (proj1 (elem_of_nil p) Hp).
  - intros id p H. rewrite lookup_empty in H. discriminate.
Qed.

Lemma limit_submit_keeps_book_witness :
  let b := one_sell in
  exists b',
    limit_book b /\ orderMap b !! "B1" = None /\
    submit "B1" "bob" "AAPL" LIMIT BUY 99 3 0 2 b = Ok (1%nat, [], b') /\
    limit_book b' /\ getBestBid b' < getBestAsk b'.
Proof.
  intros b.
  assert (E0 : submit "S1" "alice" "AAPL" LIMIT SELL 100 5 0 1
                      (OrderBook_new "AAPL") = Ok (0%nat, [], b))
    by (vm_compute; reflexivity).
  assert (E : exists b',
             submit "B1" "bob" "AAPL" LIMIT BUY 99 3 0 2 b = Ok (1%nat, [], b') /\
             buyOrders b' <> [] /\ sellOrders b' <> []).
  { eexists. split; [vm_compute; reflexivity|].
    split; vm_compute; discriminate. }
  destruct E as (b' & E & Hn1 & Hn2).
  assert (Hid : orderMap b !! "B1" = None) by (vm_compute; reflexivity).
  clearbody b.
  destruct (limit_submit_keeps_book _ _ _ _ _ _ _ _ _ _ _ _
              (limit_book_new "AAPL") (lookup_empty "S1") E0) as [Hb _].
  destruct (limit_submit_keeps_book _ _ _ _ _ _ _ _ _ _ _ _ Hb Hid E)
    as [Hb' Hx].
  exists b'. split; [exact Hb|]. split; [exact Hid|]. split; [exact E|].
  split; [exact Hb' | exact (Hx Hn1 Hn2)].
Defined.

(** ** The id index *)

Lemma iterates_orderMap_frame s t b run b' id :
  iterates s t b run b' ->
  (forall m T, (m, T) ∈ run -> makerId s T <> id) ->
  orderMap b' !! id = orderMap b !! id.
Proof.
  induction 1 as [b _|b m trade b1 run b' Htop E _ IH]; intros Hid; [done|].
  pose proof (iterates_pass_facts _ _ _ _ _ _ Htop E) as F.
  rewrite IH by (intros m' T' H; apply (Hid m' T'); by right).
  rewrite (matchIteration_orderMap _ _ _ _ _ _ Htop E).
  destruct (0 <? _); [done|].
  apply lookup_delete_ne. rewrite <- (pf_makerId _ _ _ _ _ _ F).
  apply (Hid m trade). left.
Qed.

Lemma getUserOrders_total user b : getUserOrders user b = userOrders b !!! user.
Proof.
  unfold getUserOrders. rewrite lookup_total_alt.
  by destruct (userOrders b !! user).
Qed.

(** X21.  What [addOrder] does to the indices.  The id index changes only
    at the id of the incoming order and at the ids of the resting orders it
    traded with: [getOrder] answers as before for every other id.  And an
    incoming order that is a stop-loss order, or is left with quantity, is
    indexed: [getOrder] finds it under its id and [getUserOrders] lists it
    for its user. *)
Theorem addOrder_index (b : OrderBook) (t : ptr) trades b' :
  addOrder (Some t) b = Ok (trades, b') ->
  (forall id,
     id <> orderId (deref b t) ->
     Forall (fun T => makerId (sideOf (deref b t)) T <> id) trades ->
     getOrder id b' = getOrder id b) /\
  (isStopLoss (deref b t) = true \/ 0 < remainingQuantity (deref b' t) ->
   getOrder (orderId (deref b t)) b' = Some t /\
   t ∈ getUserOrders (userId (deref b t)) b').
Proof.
  intros Hadd. unfold getOrder. setoid_rewrite getUserOrders_total.
  destruct (isStopLoss (deref b t)) eqn:Hstop.
  - unfold addOrder in Hadd. destruct (negb _); [discriminate|].
    rewrite Hstop in Hadd. injection Hadd as <- <-.
    set (b1 := if isBuy (deref b t) then _ else _).
    assert (E : deref b1 t = deref b t /\ orderMap b1 = orderMap b).
    { subst b1. by destruct (isBuy _). }
    destruct E as [Ed Em].
    destruct (addToOrderBook_sided t b1) as [_ Emap].
    destruct (addToOrderBook_spec t b1) as (S1 & S2 & _).
    rewrite Ed in *. split.
    + intros id Hid _. rewrite Emap, Em. by apply lookup_insert_ne.
    + intros _. by split.
  - destruct (addOrder_match _ _ _ _ Hadd Hstop) as (run & b1 & Hrun & -> & ->).
    pose proof (iterates_identity _ _ _ _ _ t Hrun) as (Hi & Hu & _).
    destruct (addToOrderBook_sided t b1) as [_ Emap].
    destruct (addToOrderBook_spec t b1) as (S1 & S2 & _).
    rewrite Hi, Hu in *. split.
    + intros id Hid Hmk.
      assert (Hfr : orderMap b1 !! id = orderMap b !! id).
      { apply (iterates_orderMap_frame _ _ _ _ _ _ Hrun).
        intros m T H. rewrite Forall_forall in Hmk. apply Hmk.
        apply list_elem_of_fmap. by exists (m, T). }
      destruct (0 <? _); [|done].
      rewrite Emap, lookup_insert_ne; done.
    + intros [H|H]; [discriminate|].
      destruct (Z.ltb_spec 0 (remainingQuantity (deref b1 t))); [by split|].
      lia.
Qed.

Lemma addOrder_index_witness :
  let b := one_sell_and_low_buyer.2 in
  exists b',
    addOrder (Some 1%nat) b = Ok ([], b') /\
    (isStopLoss (deref b 1%nat) = true \/
     0 < remainingQuantity (deref b' 1%nat)) /\
    getOrder "S1" b' = getOrder "S1" b /\
    getOrder (orderId (deref b 1%nat)) b' = Some 1%nat /\
    1%nat ∈ getUserOrders (userId (deref b 1%nat)) b'.
Proof.
  intros b.
  assert (E : exists b', addOrder (Some 1%nat) b = Ok ([], b') /\
                         0 < remainingQuantity (deref b' 1%nat)).
  { eexists. split; vm_compute; reflexivity. }
  destruct E as (b' & E & Hpos).
  assert (Hid : "S1" <> orderId (deref b 1%nat)) by (vm_compute; discriminate).
  clearbody b.
  destruct (addOrder_index b 1%nat [] b' E) as [H1 H2].
  exists b'. split; [exact E|]. split; [right; exact Hpos|].
  split; [exact (H1 "S1" Hid (Forall_nil_2 _))|].
  exact (H2 (or_intror Hpos)).
Defined.

(** ** Placing a stop-loss order *)

Lemma insert_has_key {T : Type} (comp : T -> T -> bool) (node : Node T) data :
  comp data data = false ->
  exists x, x ∈ inOrder (insert comp node data) /\ same_key comp x data.
Proof.
  intros Hirr. induction node as [|d l IHl r IHr h]; simpl.
  { exists data. split; [left | by split]. }
  destruct (comp data d) eqn:E1; [|destruct (comp d data) eqn:E2].
  - destruct IHl as (x & Hx & Hk). exists x. split; [|done].
    rewrite inOrder_rebalance. apply elem_of_app. by left.
  - destruct IHr as (x & Hx & Hk). exists x. split; [|done].
    rewrite inOrder_rebalance. apply elem_of_app. right. by right.
  - exists d. split; [|by split]. simpl. apply elem_of_app. right. left.
Qed.

(** X22.  Where a stop-loss order goes.  [addOrder] returns no trade for
    a STOP_LOSS order and changes no order object; the stop tree of the
    order's side keeps its elements and holds an element with the order's
    trigger price, the other stop tree is unchanged; and, as for any
    resting order, the order is pushed at the end of the queue of its side
    while the opposite queue and the last trade price stay as they are. *)
Theorem stop_order_placement (b : OrderBook) (t : ptr) trades b' :
  addOrder (Some t) b = Ok (trades, b') ->
  type (deref b t) = STOP_LOSS ->
  trades = [] /\ mem b' = mem b /\
  own (sideOf (deref b t)) b' = own (sideOf (deref b t)) b ++ [t] /\
  opposite (sideOf (deref b t)) b' = opposite (sideOf (deref b t)) b /\
  lastTradePrice b' = lastTradePrice b /\
  (side (deref b t) = BUY ->
   sellStopLossOrders b' = sellStopLossOrders b /\
   (forall x, x ∈ inOrder (buyStopLossOrders b) ->
              x ∈ inOrder (buyStopLossOrders b')) /\
   exists x, x ∈ inOrder (buyStopLossOrders b') /\
             triggerPrice (deref b x) = triggerPrice (deref b t)) /\
  (side (deref b t) = SELL ->
   buyStopLossOrders b' = buyStopLossOrders b /\
   (forall x, x ∈ inOrder (sellStopLossOrders b) ->
              x ∈ inOrder (sellStopLossOrders b')) /\
   exists x, x ∈ inOrder (sellStopLossOrders b') /\
             triggerPrice (deref b x) = triggerPrice (deref b t)).
Proof.
  intros Hadd Hty. unfold addOrder in Hadd.
  destruct (negb _); [discriminate|].
  unfold isStopLoss in Hadd. rewrite Hty in Hadd.
  rewrite bool_decide_eq_true_2 in Hadd by done.
  injection Hadd as <- <-.
  set (b1 := if isBuy (deref b t) then _ else _).
  assert (Ed : deref b1 t = deref b t) by (subst b1; by destruct (isBuy _)).
  destruct (addToOrderBook_sided t b1) as [Eown _].
  pose proof (addToOrderBook_opposite t b1) as Eopp.
  destruct (addToOrderBook_frame t b1) as (Fb & Fs & Fl).
  rewrite Ed in Eown, Eopp. rewrite Eown, Eopp, Fb, Fs, Fl.
  rewrite addToOrderBook_mem.
  split; [done|]. unfold deref, isBuy in *. subst b1.
  case_bool_decide as Hsd; simpl.
  - split; [done|]. split; [done|]. split; [done|]. split; [done|].
    split; [|intros H; congruence]. intros _. split; [done|].
    split; [intros x; apply inOrder_insert|].
    destruct (insert_has_key (StopLossBuyComparator (mem b))
                (buyStopLossOrders b) t) as (x & Hx & H1 & H2).
    { apply Z.ltb_irrefl. }
    exists x. split; [done|]. unfold StopLossBuyComparator in *. lia.
  - split; [done|]. split; [done|]. split; [done|]. split; [done|].
    split; [done|]. intros _. split; [done|].
    split; [intros x; apply inOrder_insert|].
    destruct (insert_has_key (StopLossSellComparator (mem b))
                (sellStopLossOrders b) t) as (x & Hx & H1 & H2).
    { apply Z.ltb_irrefl. }
    exists x. split; [done|]. unfold StopLossSellComparator in *. lia.
Qed.

Lemma stop_order_placement_witness :
  let b := (make_shared (mkOrder "ST" "alice" "AAPL" STOP_LOSS SELL 100 5 5
                                 PENDING 1 90) (OrderBook_new "AAPL")).2 in
  exists b',
    addOrder (Some 0%nat) b = Ok ([], b') /\
    type (deref b 0%nat) = STOP_LOSS /\
    own (sideOf (deref b 0%nat)) b' = own (sideOf (deref b 0%nat)) b ++ [0%nat].
Proof.
  intros b.
  assert (E : exists b', addOrder (Some 0%nat) b = Ok ([], b'))
    by (eexists; vm_compute; reflexivity).
  destruct E as [b' E].
  assert (Hty : type (deref b 0%nat) = STOP_LOSS) by (vm_compute; reflexivity).
  clearbody b.
  exists b'. split; [exact E|]. split; [exact Hty|].
  exact (proj1 (proj2 (proj2 (stop_order_placement b 0%nat [] b' E Hty)))).
Defined.
